(** * Lunar-lander terrain generation: a shallow embedding of [gen.js]

    The development follows the functions of [gen.js]: [makeWaveFunction]
    (the sum of harmonics), [generateTerrain] (the sampler with jitter and
    landing zones), [drawTerrain] and [regen].

    Numbers.  The program computes with IEEE 754 doubles.  The functions
    are embedded twice, line by line both times.

    The first embedding idealises the arithmetic: a number is a [num], a
    real number or one of the three special values [+Infinity],
    [-Infinity] and [NaN]; arithmetic on finite values is exact real
    arithmetic (no rounding, no overflow, one zero); the special values
    follow the IEEE 754 rules, so that a division by zero and an
    [undefined] operand behave as they do in the program.  It carries the
    properties of the shape of a run: which branch is taken, what is
    pushed and in which order, what the renderer is asked to draw.

    The second embedding (module [Double]) computes with the doubles
    themselves: round to nearest, ties to even, overflow to the infinities,
    gradual underflow, two zeros.  It is executable, and it carries the
    properties that rounding or overflow decide: what the wave function
    returns, how many coordinates and zones a run yields, whether the loop
    ends.

    Randomness.  [Math.random] is modelled by a sequence of draws and a
    cursor that advances by one with every call. *)

From Stdlib Require Import Reals Lra Lia ZArith QArith SpecFloat.
From stdpp Require Import gmap strings pretty list.

(** ** JavaScript numbers *)

Inductive num : Type :=
| Fin (r : R)
| PInf
| NInf
| NaN.

#[global] Instance Rlt_decision : RelDecision Rlt := Rlt_dec.
#[global] Instance Req_decision : EqDecision R := Req_dec_T.

Module Js.

(** The infinity whose sign is the sign of [r]; [NaN] when [r] is zero
    (as in [Infinity * 0]). *)
Definition inf_signed (r : R) : num :=
  if decide (0 < r)%R then PInf
  else if decide (r < 0)%R then NInf
  else NaN.

Definition neg (a : num) : num :=
  match a with
  | Fin r => Fin (- r)
  | PInf => NInf
  | NInf => PInf
  | NaN => NaN
  end.

Definition add (a b : num) : num :=
  match a, b with
  | Fin r, Fin s => Fin (r + s)
  | NaN, _ | _, NaN => NaN
  | PInf, NInf | NInf, PInf => NaN
  | PInf, _ | _, PInf => PInf
  | NInf, _ | _, NInf => NInf
  end.

Definition sub (a b : num) : num := add a (neg b).

Definition mul (a b : num) : num :=
  match a, b with
  | Fin r, Fin s => Fin (r * s)
  | NaN, _ | _, NaN => NaN
  | PInf, PInf | NInf, NInf => PInf
  | PInf, NInf | NInf, PInf => NInf
  | PInf, Fin r | Fin r, PInf => inf_signed r
  | NInf, Fin r | Fin r, NInf => inf_signed (- r)
  end.

(** A finite value over zero is an infinity of the sign of the dividend
    ([0 / 0] is [NaN]); a finite value over an infinity is zero. *)
Definition div (a b : num) : num :=
  match a, b with
  | Fin r, Fin s => if decide (s = 0%R) then inf_signed r else Fin (r / s)
  | NaN, _ | _, NaN => NaN
  | Fin _, (PInf | NInf) => Fin 0
  | (PInf | NInf), (PInf | NInf) => NaN
  | PInf, Fin s => if decide (s < 0)%R then NInf else PInf
  | NInf, Fin s => if decide (s < 0)%R then PInf else NInf
  end.

(** [a < b]: false as soon as one side is [NaN]. *)
Definition lt (a b : num) : bool :=
  match a, b with
  | Fin r, Fin s => bool_decide (r < s)%R
  | NaN, _ | _, NaN => false
  | _, NInf => false
  | PInf, _ => false
  | NInf, _ => true
  | Fin _, PInf => true
  end.

Definition gt (a b : num) : bool := lt b a.

(** [a === b] on numbers: [NaN] is equal to nothing, itself included. *)
Definition strict_eq (a b : num) : bool :=
  match a, b with
  | Fin r, Fin s => bool_decide (r = s)
  | PInf, PInf | NInf, NInf => true
  | _, _ => false
  end.

(** [Math.sin] and [Math.cos]: [NaN] outside the finite numbers. *)
Definition sin (a : num) : num :=
  match a with Fin r => Fin (Rtrigo_def.sin r) | _ => NaN end.

Definition cos (a : num) : num :=
  match a with Fin r => Fin (Rtrigo_def.cos r) | _ => NaN end.

(** An integer loop counter used as a number. *)
Definition of_Z (i : Z) : num := Fin (IZR i).

(** [Math.floor(u * 100) % m] for a draw [u] of [Math.random]; [%] is
    the truncated remainder. *)
Definition draw_mod (u : R) (m : Z) : Z := Z.rem (Zfloor (u * 100)) m.

End Js.

Declare Scope js_scope.
Delimit Scope js_scope with js.
Bind Scope js_scope with num.
Infix "+" := Js.add : js_scope.
Infix "-" := Js.sub : js_scope.
Infix "*" := Js.mul : js_scope.
Infix "/" := Js.div : js_scope.

(** ** The wave function *)

(** The property name [prefix + i] of a term set, the object [t] of
    [makeWaveFunction] (a map from property names to numbers). *)
Definition key (prefix : string) (i : Z) : string := prefix +:+ pretty i.

(** [t[prefix + i]] used as a factor: a missing property is [undefined],
    which multiplies as [NaN]. *)
Definition term_flag (t : gmap string num) (prefix : string) (i : Z) : num :=
  match t !! key prefix i with
  | Some v => v
  | None => NaN
  end.

(** One pass of the body of the [for] loop of the returned function, at
    counter [i]: the value added to [y]. *)
Definition wave_term (t : gmap string num) (x : num) (i : Z) : num :=
  (term_flag t "s" i * Js.sin (Js.of_Z i * x)
   + term_flag t "c" i * Js.cos (Js.of_Z i * x))%js.

(** [for(i = n; i >= 1; i--) y += ...] with [k] passes left, the counter
    being [i = k]. *)
Fixpoint wave_loop (t : gmap string num) (x : num) (k : nat) (y : num) : num :=
  match k with
  | O => y
  | S k' => wave_loop t x k' (y + wave_term t x (Z.of_nat k))%js
  end.

Definition nan_warning : string :=
  "error: wavefunction returned NaN. Did you set terms correctly?".

(** The function returned by [makeWaveFunction(t, n)], applied to [x]: the
    value returned and the lines written to the console. *)
Definition makeWaveFunction (t : gmap string num) (n : Z) (x : num)
  : num * list string :=
  let y := wave_loop t x (Z.to_nat n) (Fin 0) in
  (y, if Js.strict_eq y NaN then [nan_warning] else []).

(** ** The terrain sampler *)

Record coord : Type := Coord { x : num; y : num }.

(** The [options] object.  A field is [None] when the property is absent.
    The three counts are integers and the other settings finite reals. *)
Record options : Type := Options {
  numTerms : option Z;
  maxPhase : option R;
  numSamples : option Z;
  scaleX : option R;
  scaleY : option R;
  offsetY : option R;
  maxDeviationX : option R;
  maxDeviationY : option R;
  numZones : option Z;
  zoneWidths : option (list R)
}.

(** [(options[f]) ? options[f] : d]: an absent property and the number
    zero are both falsy. *)
Definition or_default {A : Type} `{EqDecision A} (zero : A) (o : option A) (d : A) : A :=
  match o with
  | Some v => if decide (v = zero) then d else v
  | None => d
  end.

(** The local variables of [generateTerrain] once the defaults are in. *)
Record settings : Type := Settings {
  s_numTerms : Z;
  s_maxPhase : R;
  s_numSamples : Z;
  s_scaleX : R;
  s_scaleY : R;
  s_offsetY : R;
  s_maxDevX : R;
  s_maxDevY : R;
  s_numZones : Z;
  s_zoneWidths : list R
}.

Definition read_options (o : options) : settings :=
  {| s_numTerms := or_default 0%Z (numTerms o) 3%Z;
     s_maxPhase := or_default 0%R (maxPhase o) (2 * PI)%R;
     s_numSamples := or_default 0%Z (numSamples o) 100%Z;
     s_scaleX := or_default 0%R (scaleX o) 100%R;
     s_scaleY := or_default 0%R (scaleY o) 100%R;
     s_offsetY := or_default 0%R (offsetY o) 0%R;
     s_maxDevX := or_default 0%R (maxDeviationX o) 0%R;
     s_maxDevY := or_default 0%R (maxDeviationY o) 0%R;
     s_numZones := or_default 0%Z (numZones o) 0%Z;
     (* an array is truthy whatever it holds *)
     s_zoneWidths := default [0; 0; 0]%R (zoneWidths o) |}.

(** [zoneWidths[i]] as an addend: [undefined] past the end adds as [NaN]. *)
Definition zone_width (ws : list R) (i : nat) : num :=
  match ws !! i with
  | Some w => Fin w
  | None => NaN
  end.

(** [(Math.random() * 2) - 1] for the draw [u]. *)
Definition centred (u : R) : num := Fin (u * 2 - 1).

(** The variables that the sampling loop updates, with the cursor into
    the sequence of random draws and the console. *)
Record loopState : Type := LoopState {
  st_a : num;
  st_zonesPlaced : Z;
  st_terrain : list coord;
  st_rng : nat;
  st_console : list string
}.

Section Sampler.

(** The draws of [Math.random], in call order. *)
Variable rnd : nat → R.

(** [for(i = 1; i <= numTerms; i++)] with [k] passes left: two draws per
    pass, the sine flag first. *)
Fixpoint terms_loop (k : nat) (i : Z) (terms : gmap string num) (cur : nat)
  : gmap string num * nat :=
  match k with
  | O => (terms, cur)
  | S k' =>
      let terms := <[key "s" i := Js.of_Z (Js.draw_mod (rnd cur) 2)]> terms in
      let terms := <[key "c" i := Js.of_Z (Js.draw_mod (rnd (S cur)) 2)]> terms in
      terms_loop k' (i + 1)%Z terms (S (S cur))
  end.

Variable c : settings.
Variable terms : gmap string num.

Definition wave (a : num) : num * list string :=
  makeWaveFunction terms (s_numTerms c) a.

Definition zoneSpacing : num :=
  (Fin (s_maxPhase c) / Js.of_Z (s_numZones c))%js.
Definition da : num :=
  (Fin (s_maxPhase c) / Js.of_Z (s_numSamples c))%js.
Definition dda : num := (da * Fin 0.4)%js.

(** The part of the loop body after the sample is pushed: [xs] and [ys]
    are the jittered [x] and [y] of the sample. *)
Definition zone_part (s : loopState) (xs ys : num) : loopState :=
  if (s_numZones c <? st_zonesPlaced s)%Z then s
  else if Js.gt (st_a s / zoneSpacing - Js.of_Z (st_zonesPlaced s))%js (Fin 0)
  then
    if negb (Js.draw_mod (rnd (st_rng s)) 8 =? 1)%Z then
      {| st_a := st_a s; st_zonesPlaced := st_zonesPlaced s;
         st_terrain := st_terrain s; st_rng := S (st_rng s);
         st_console := st_console s |}
    else
      let zone := Js.draw_mod (rnd (S (st_rng s))) 3 in
      let xz :=
        match zone with
        | 0%Z => (xs + zone_width (s_zoneWidths c) 0)%js
        | 1%Z => (xs + zone_width (s_zoneWidths c) 1)%js
        | 2%Z => (xs + zone_width (s_zoneWidths c) 2)%js
        | _ => xs
        end in
      {| st_a := (xz / Fin (s_scaleX c))%js;
         st_zonesPlaced := (st_zonesPlaced s + 1)%Z;
         st_terrain := st_terrain s ++ [Coord xz ys];
         st_rng := S (S (st_rng s));
         st_console := st_console s |}
  else s.

(** The body of the sampling loop. *)
Definition loop_body (s : loopState) : loopState :=
  let a := st_a s in
  let (w, out) := wave a in
  let y0 := (Fin (s_offsetY c) - w * Fin (s_scaleY c))%js in
  let x0 := (a * Fin (s_scaleX c))%js in
  let ys := (y0 + centred (rnd (st_rng s)) * Fin (s_maxDevY c))%js in
  let xs := (x0 + centred (rnd (S (st_rng s))) * Fin (s_maxDevX c))%js in
  zone_part
    {| st_a := a; st_zonesPlaced := st_zonesPlaced s;
       st_terrain := st_terrain s ++ [Coord xs ys];
       st_rng := S (S (st_rng s));
       st_console := st_console s ++ out |}
    xs ys.

(** The update expression of the [for]: it also runs after [continue]. *)
Definition loop_update (s : loopState) : loopState :=
  {| st_a := (st_a s + (da + centred (rnd (st_rng s)) * dda))%js;
     st_zonesPlaced := st_zonesPlaced s;
     st_terrain := st_terrain s;
     st_rng := S (st_rng s);
     st_console := st_console s |}.

(** [for(...; a < maxPhase; ...)], at most [fuel] tests of the condition:
    [None] when the fuel runs out before the condition fails. *)
Fixpoint sample_loop (fuel : nat) (s : loopState) : option loopState :=
  match fuel with
  | O => None
  | S fuel' =>
      if Js.lt (st_a s) (Fin (s_maxPhase c))
      then sample_loop fuel' (loop_update (loop_body s))
      else Some s
  end.

End Sampler.

(** The state in which the sampling loop is entered: the terms drawn,
    [a = 0], no zone placed, an empty terrain. *)
Definition draw_terms (rnd : nat → R) (c : settings) : gmap string num * nat :=
  terms_loop rnd (Z.to_nat (s_numTerms c)) 1%Z ∅ O.

Definition initial_state (cur : nat) : loopState :=
  {| st_a := Fin 0; st_zonesPlaced := 0%Z; st_terrain := [];
     st_rng := cur; st_console := [] |}.

(** A whole call, up to the [return]: the final values of the variables. *)
Definition generateTerrain_run (rnd : nat → R) (fuel : nat) (o : options)
  : option loopState :=
  let c := read_options o in
  let (terms, cur) := draw_terms rnd c in
  sample_loop rnd c terms fuel (initial_state cur).

(** [generateTerrain(options)]: the array returned. *)
Definition generateTerrain (rnd : nat → R) (fuel : nat) (o : options)
  : option (list coord) :=
  st_terrain <$> generateTerrain_run rnd fuel o.

(** ** The renderer *)

(** What [drawTerrain] does to the drawing context: the calls of its
    methods and the one assignment to its [strokeStyle], in order. *)
Inductive canvasCall : Type :=
| ClearRect (x0 y0 w h : num)
| SetStrokeStyle (v : string)
| BeginPath
| MoveTo (px py : num)
| LineTo (px py : num)
| Stroke.

(** How a call ends: with a [return], or with the [TypeError] of a
    property read on [undefined]. *)
Inductive completion : Type :=
| Returned
| TypeError.

Definition CANVAS_WIDTH_PX : R := 800.
Definition CANVAS_HEIGHT_PX : R := 600.

(** [for(...; i < t.length; i++) ctx.lineTo(t[i].x, t[i].y)] from the index
    [i], at most [fuel] tests of the condition. *)
Fixpoint lineTo_loop (t : list coord) (fuel i : nat)
  : list canvasCall * completion :=
  match fuel with
  | O => ([], Returned)
  | S fuel' =>
      if (i <? length t)%nat then
        match t !! i with
        | Some p =>
            let (calls, end_) := lineTo_loop t fuel' (S i) in
            (LineTo (x p) (y p) :: calls, end_)
        | None => ([], TypeError)
        end
      else ([], Returned)
  end.

(** [drawTerrain(terrain, ctx)]: the calls made on [ctx] and how the call
    ends.  [t[0].x] throws when the array is empty. *)
Definition drawTerrain (t : list coord) : list canvasCall * completion :=
  let prologue :=
    [ClearRect (Fin 0) (Fin 0) (Fin CANVAS_WIDTH_PX) (Fin CANVAS_HEIGHT_PX);
     SetStrokeStyle "#000000";
     BeginPath] in
  match t !! 0 with
  | None => (prologue, TypeError)
  | Some p0 =>
      let (calls, end_) := lineTo_loop t (length t) 1 in
      match end_ with
      | Returned => (prologue ++ MoveTo (x p0) (y p0) :: calls ++ [Stroke],
                     Returned)
      | TypeError => (prologue ++ MoveTo (x p0) (y p0) :: calls, TypeError)
      end
  end.

(** ** The form *)

(** The fields of the form as [parseInt] returns them: an integer, or
    [None] for [NaN].  The three widths are taken as integers: a width
    that does not parse is outside this model. *)
Record form : Type := Form {
  f_n : option Z;
  f_samples : option Z;
  f_scaleY : option Z;
  f_maxDevX : option Z;
  f_maxDevY : option Z;
  f_numZones : option Z;
  f_x5Width : Z;
  f_x3Width : Z;
  f_x2Width : Z
}.

(** The [options] object that [regen] builds.  A field that is [NaN] is
    falsy, like an absent one, and [generateTerrain] reads its options
    through that test only. *)
Definition regen_options (f : form) : options :=
  {| numTerms := f_n f;
     maxPhase := Some (3 * PI)%R;
     numSamples := f_samples f;
     scaleX := Some (CANVAS_WIDTH_PX / (3 * PI))%R;
     scaleY := IZR <$> f_scaleY f;
     offsetY := Some 400%R;
     maxDeviationX := IZR <$> f_maxDevX f;
     maxDeviationY := IZR <$> f_maxDevY f;
     numZones := f_numZones f;
     zoneWidths := Some [IZR (f_x5Width f); IZR (f_x3Width f);
                         IZR (f_x2Width f)] |}.

(** [regen()]: the terrain is generated and drawn; the calls made on the
    context and how the call ends. *)
Definition regen (rnd : nat → R) (fuel : nat) (f : form)
  : option (list canvasCall * completion) :=
  drawTerrain <$> generateTerrain rnd fuel (regen_options f).

(** * The same functions in double precision

    The numbers of the program are IEEE 754 doubles.  The embedding above
    computes with exact reals; the one of this module computes with the
    doubles themselves: [spec_float] at precision 53, with round to nearest,
    ties to even, overflow to the infinities, gradual underflow and the two
    zeros.  It follows the source line by line like the first one, and it is
    executable.

    [Math.sin] and [Math.cos] are fixed by the language at the zeros, the
    infinities and [NaN] only; elsewhere they are approximations that the
    engine chooses.  The engine's part is a parameter: [sin_impl] and
    [cos_impl].  [Math.random] is a sequence of doubles.

    The three counts ([numTerms], [numSamples], [numZones]) and the loop
    counters are integers, as in the first embedding; below [2^53] in
    absolute value a double holds them exactly, and their comparisons and
    increments are those of the integers. *)

Module Double.

Definition double : Type := spec_float.

Definition prec : Z := 53.
Definition emax : Z := 1024.

Definition zero : double := S754_zero false.
Definition nan : double := S754_nan.

Definition add : double → double → double := SFadd prec emax.
Definition sub : double → double → double := SFsub prec emax.
Definition mul : double → double → double := SFmul prec emax.
Definition div : double → double → double := SFdiv prec emax.

(** [a < b] and [a > b]: false as soon as one side is [NaN]. *)
Definition lt (a b : double) : bool := SFltb a b.
Definition gt (a b : double) : bool := SFltb b a.

(** [a === b] on numbers: [NaN] is equal to nothing, the two zeros are
    equal. *)
Definition strict_eq (a b : double) : bool := SFeqb a b.

(** An integer used as a number: the nearest double. *)
Definition of_Z (i : Z) : double := binary_normalize prec emax i 0 false.

(** The decimal literal [m e k]: for [k >= 0] the double nearest to the
    integer, and for [k < 0] the quotient of two integers that doubles
    hold exactly, which is the double nearest to the decimal (the literals
    of this development have [m] below [2^53] and at most 22 decimals). *)
Definition decimal (m k : Z) : double :=
  if (0 <=? k)%Z then of_Z (m * 10 ^ k) else div (of_Z m) (of_Z (10 ^ (- k))).

Definition one : double := of_Z 1.

(** [Math.PI], the double [0x1.921fb54442d18p+1]. *)
Definition PI : double := S754_finite false 7074237752028440 (-51).

Definition is_finite (a : double) : bool :=
  match a with
  | S754_zero _ | S754_finite _ _ _ => true
  | _ => false
  end.

Definition is_zero (a : double) : bool :=
  match a with
  | S754_zero _ => true
  | _ => false
  end.

(** [Math.floor] of a finite number, as an integer; [None] for the
    infinities and [NaN], which [Math.floor] returns unchanged. *)
Definition floor (a : double) : option Z :=
  match a with
  | S754_zero _ => Some 0%Z
  | S754_finite s m e => Some (Z.shiftl (cond_Zopp s (Z.pos m)) e)
  | _ => None
  end.

(** [Math.floor(u * 100) % m] for a draw [u]; [%] is the truncated
    remainder, exact on integers.  [None] stands for [NaN]. *)
Definition draw_mod (u : double) (m : Z) : option Z :=
  (λ h, Z.rem h m) <$> floor (mul u (of_Z 100)).

(** The remainder as a number. *)
Definition of_rem (r : option Z) : double :=
  match r with
  | Some k => of_Z k
  | None => nan
  end.

Declare Scope double_scope.
Delimit Scope double_scope with dbl.
Bind Scope double_scope with double.
Infix "+" := add : double_scope.
Infix "-" := sub : double_scope.
Infix "*" := mul : double_scope.
Infix "/" := div : double_scope.

Section Engine.

(** The engine's sine and cosine on the finite numbers that are not
    zero. *)
Variable sin_impl cos_impl : double → double.

(** [Math.sin]: [NaN] at [NaN] and at the infinities, the argument itself
    at the two zeros. *)
Definition sin (a : double) : double :=
  match a with
  | S754_nan | S754_infinity _ => nan
  | S754_zero _ => a
  | S754_finite _ _ _ => sin_impl a
  end.

(** [Math.cos]: [NaN] at [NaN] and at the infinities, 1 at the two
    zeros. *)
Definition cos (a : double) : double :=
  match a with
  | S754_nan | S754_infinity _ => nan
  | S754_zero _ => one
  | S754_finite _ _ _ => cos_impl a
  end.

(** ** The wave function *)

(** [t[prefix + i]] used as a factor: a missing property is [undefined],
    which multiplies as [NaN]. *)
Definition term_flag (t : gmap string double) (prefix : string) (i : Z)
  : double :=
  match t !! key prefix i with
  | Some v => v
  | None => nan
  end.

(** The value added to [y] by the pass at counter [i]. *)
Definition wave_term (t : gmap string double) (x : double) (i : Z) : double :=
  (term_flag t "s" i * sin (of_Z i * x)
   + term_flag t "c" i * cos (of_Z i * x))%dbl.

(** [for(i = n; i >= 1; i--) y += ...] with [k] passes left, the counter
    being [i = k]. *)
Fixpoint wave_loop (t : gmap string double) (x : double) (k : nat)
  (y : double) : double :=
  match k with
  | O => y
  | S k' => wave_loop t x k' (y + wave_term t x (Z.of_nat k))%dbl
  end.

(** The function returned by [makeWaveFunction(t, n)], applied to [x]: the
    value returned and the lines written to the console. *)
Definition makeWaveFunction (t : gmap string double) (n : Z) (x : double)
  : double * list string :=
  let y := wave_loop t x (Z.to_nat n) zero in
  (y, if strict_eq y nan then [nan_warning] else []).

(** ** The terrain sampler *)

Record coord : Type := Coord { x : double; y : double }.

(** The [options] object.  A field is [None] when the property is
    absent. *)
Record options : Type := Options {
  numTerms : option Z;
  maxPhase : option double;
  numSamples : option Z;
  scaleX : option double;
  scaleY : option double;
  offsetY : option double;
  maxDeviationX : option double;
  maxDeviationY : option double;
  numZones : option Z;
  zoneWidths : option (list double)
}.

(** The numbers that are falsy: the two zeros and [NaN]. *)
Definition truthy (v : double) : bool :=
  match v with
  | S754_zero _ | S754_nan => false
  | _ => true
  end.

(** [(options[f]) ? options[f] : d] for a number and for a count. *)
Definition or_default (o : option double) (d : double) : double :=
  match o with
  | Some v => if truthy v then v else d
  | None => d
  end.

Definition or_default_count (o : option Z) (d : Z) : Z :=
  match o with
  | Some v => if (v =? 0)%Z then d else v
  | None => d
  end.

(** The local variables of [generateTerrain] once the defaults are in. *)
Record settings : Type := Settings {
  s_numTerms : Z;
  s_maxPhase : double;
  s_numSamples : Z;
  s_scaleX : double;
  s_scaleY : double;
  s_offsetY : double;
  s_maxDevX : double;
  s_maxDevY : double;
  s_numZones : Z;
  s_zoneWidths : list double
}.

Definition read_options (o : options) : settings :=
  {| s_numTerms := or_default_count (numTerms o) 3;
     s_maxPhase := or_default (maxPhase o) (of_Z 2 * PI)%dbl;
     s_numSamples := or_default_count (numSamples o) 100;
     s_scaleX := or_default (scaleX o) (of_Z 100);
     s_scaleY := or_default (scaleY o) (of_Z 100);
     s_offsetY := or_default (offsetY o) zero;
     s_maxDevX := or_default (maxDeviationX o) zero;
     s_maxDevY := or_default (maxDeviationY o) zero;
     s_numZones := or_default_count (numZones o) 0;
     (* an array is truthy whatever it holds *)
     s_zoneWidths := default [zero; zero; zero] (zoneWidths o) |}.

(** [zoneWidths[i]] as an addend: [undefined] past the end adds as [NaN]. *)
Definition zone_width (ws : list double) (i : nat) : double :=
  match ws !! i with
  | Some w => w
  | None => nan
  end.

(** [(Math.random() * 2) - 1] for the draw [u]. *)
Definition centred (u : double) : double := (u * of_Z 2 - one)%dbl.

(** The variables that the sampling loop updates, with the cursor into
    the sequence of random draws and the console. *)
Record loopState : Type := LoopState {
  st_a : double;
  st_zonesPlaced : Z;
  st_terrain : list coord;
  st_rng : nat;
  st_console : list string
}.

Section Sampler.

(** The draws of [Math.random], in call order. *)
Variable rnd : nat → double.

(** [for(i = 1; i <= numTerms; i++)] with [k] passes left: two draws per
    pass, the sine flag first. *)
Fixpoint terms_loop (k : nat) (i : Z) (terms : gmap string double)
  (cur : nat) : gmap string double * nat :=
  match k with
  | O => (terms, cur)
  | S k' =>
      let terms := <[key "s" i := of_rem (draw_mod (rnd cur) 2)]> terms in
      let terms := <[key "c" i := of_rem (draw_mod (rnd (S cur)) 2)]> terms in
      terms_loop k' (i + 1)%Z terms (S (S cur))
  end.

Variable c : settings.
Variable terms : gmap string double.

Definition wave (a : double) : double * list string :=
  makeWaveFunction terms (s_numTerms c) a.

Definition zoneSpacing : double := (s_maxPhase c / of_Z (s_numZones c))%dbl.
Definition da : double := (s_maxPhase c / of_Z (s_numSamples c))%dbl.
Definition dda : double := (da * decimal 4 (-1))%dbl.

(** The part of the loop body after the sample is pushed: [xs] and [ys]
    are the jittered [x] and [y] of the sample. *)
Definition zone_part (s : loopState) (xs ys : double) : loopState :=
  if (s_numZones c <? st_zonesPlaced s)%Z then s
  else if gt (st_a s / zoneSpacing - of_Z (st_zonesPlaced s))%dbl zero
  then
    if negb (bool_decide (draw_mod (rnd (st_rng s)) 8 = Some 1%Z)) then
      {| st_a := st_a s; st_zonesPlaced := st_zonesPlaced s;
         st_terrain := st_terrain s; st_rng := S (st_rng s);
         st_console := st_console s |}
    else
      let zone := draw_mod (rnd (S (st_rng s))) 3 in
      let xz :=
        match zone with
        | Some 0%Z => (xs + zone_width (s_zoneWidths c) 0)%dbl
        | Some 1%Z => (xs + zone_width (s_zoneWidths c) 1)%dbl
        | Some 2%Z => (xs + zone_width (s_zoneWidths c) 2)%dbl
        | _ => xs
        end in
      {| st_a := (xz / s_scaleX c)%dbl;
         st_zonesPlaced := (st_zonesPlaced s + 1)%Z;
         st_terrain := st_terrain s ++ [Coord xz ys];
         st_rng := S (S (st_rng s));
         st_console := st_console s |}
  else s.

(** The body of the sampling loop. *)
Definition loop_body (s : loopState) : loopState :=
  let a := st_a s in
  let (w, out) := wave a in
  let y0 := (s_offsetY c - w * s_scaleY c)%dbl in
  let x0 := (a * s_scaleX c)%dbl in
  let ys := (y0 + centred (rnd (st_rng s)) * s_maxDevY c)%dbl in
  let xs := (x0 + centred (rnd (S (st_rng s))) * s_maxDevX c)%dbl in
  zone_part
    {| st_a := a; st_zonesPlaced := st_zonesPlaced s;
       st_terrain := st_terrain s ++ [Coord xs ys];
       st_rng := S (S (st_rng s));
       st_console := st_console s ++ out |}
    xs ys.

(** The update expression of the [for]: it also runs after [continue]. *)
Definition loop_update (s : loopState) : loopState :=
  {| st_a := (st_a s + (da + centred (rnd (st_rng s)) * dda))%dbl;
     st_zonesPlaced := st_zonesPlaced s;
     st_terrain := st_terrain s;
     st_rng := S (st_rng s);
     st_console := st_console s |}.

(** [for(...; a < maxPhase; ...)], at most [fuel] tests of the condition:
    [None] when the fuel runs out before the condition fails. *)
Fixpoint sample_loop (fuel : nat) (s : loopState) : option loopState :=
  match fuel with
  | O => None
  | S fuel' =>
      if lt (st_a s) (s_maxPhase c)
      then sample_loop fuel' (loop_update (loop_body s))
      else Some s
  end.

(** The number of passes of the body in the same run. *)
Fixpoint sample_passes (fuel : nat) (s : loopState) : option nat :=
  match fuel with
  | O => None
  | S fuel' =>
      if lt (st_a s) (s_maxPhase c)
      then S <$> sample_passes fuel' (loop_update (loop_body s))
      else Some O
  end.

End Sampler.

Definition draw_terms (rnd : nat → double) (c : settings)
  : gmap string double * nat :=
  terms_loop rnd (Z.to_nat (s_numTerms c)) 1%Z ∅ O.

Definition initial_state (cur : nat) : loopState :=
  {| st_a := zero; st_zonesPlaced := 0%Z; st_terrain := [];
     st_rng := cur; st_console := [] |}.

(** A whole call, up to the [return]: the final values of the variables. *)
Definition generateTerrain_run (rnd : nat → double) (fuel : nat) (o : options)
  : option loopState :=
  let c := read_options o in
  let (terms, cur) := draw_terms rnd c in
  sample_loop rnd c terms fuel (initial_state cur).

(** The number of passes of the sampling loop in the call. *)
Definition generateTerrain_passes (rnd : nat → double) (fuel : nat)
  (o : options) : option nat :=
  let c := read_options o in
  let (terms, cur) := draw_terms rnd c in
  sample_passes rnd c terms fuel (initial_state cur).

(** [generateTerrain(options)]: the array returned. *)
Definition generateTerrain (rnd : nat → double) (fuel : nat) (o : options)
  : option (list coord) :=
  st_terrain <$> generateTerrain_run rnd fuel o.

End Engine.

End Double.

(** * Definitions for the statements and the proofs *)

(** ** The wave function as a sum of harmonics *)

(** The sum of the specification, [Σ_{i=1}^{n} s_i·sin(i·a) + c_i·cos(i·a)],
    over the reals: first its term of index [i]. *)
Definition harmonic (s c : Z → R) (a : R) (i : Z) : R :=
  (s i * Rtrigo_def.sin (IZR i * a) + c i * Rtrigo_def.cos (IZR i * a))%R.

(** The terms of the indices [1..n], added in ascending order. *)
Fixpoint harmonic_sum (s c : Z → R) (a : R) (n : nat) : R :=
  match n with
  | O => 0%R
  | S n' => (harmonic_sum s c a n' + harmonic s c a (Z.of_nat n))%R
  end.


(** [t] holds the coefficients [s] and [c] for the indices [1..n]. *)
Definition holds_terms (t : gmap string num) (s c : Z → R) (n : Z) : Prop :=
  ∀ i : Z, (1 ≤ i ≤ n)%Z →
    t !! key "s" i = Some (Fin (s i)) ∧ t !! key "c" i = Some (Fin (c i)).

(** The coefficient that the pass [i] of the loop over the terms stores
    from its draw: sine flags take the even draws, cosine flags the odd. *)
Definition drawn_s (rnd : nat → R) (i : Z) : R :=
  IZR (Js.draw_mod (rnd (2 * Z.to_nat (i - 1))%nat) 2).

(** The cosine coefficient, from the draw that follows. *)
Definition drawn_c (rnd : nat → R) (i : Z) : R :=
  IZR (Js.draw_mod (rnd (S (2 * Z.to_nat (i - 1)))%nat) 2).

(** ** The quantities of one pass of the sampling loop *)

Section Quantities.

Variable rnd : nat → R.
Variable c : settings.

(** The coefficients stored in the terms. *)
Variables cs cc : Z → R.

(** The value of the wave function at a finite angle. *)
Definition base (r : R) : R :=
  harmonic_sum cs cc r (Z.to_nat (s_numTerms c)).

(** The [x] of the sample taken at the angle [r], with the deviation for
    the draw [ux]. *)
Definition sample_x (r ux : R) : R :=
  (r * s_scaleX c + (ux * 2 - 1) * s_maxDevX c)%R.

(** Its [y], with the deviation for the draw [uy]. *)
Definition sample_y (r uy : R) : R :=
  (s_offsetY c - base r * s_scaleY c + (uy * 2 - 1) * s_maxDevY c)%R.

(** The sample taken at the angle [r] with the draws [uy] and [ux]. *)
Definition sample (r uy ux : R) : coord :=
  Coord (Fin (sample_x r ux)) (Fin (sample_y r uy)).

(** The angle after the update expression, for the draw [u]. *)
Definition advance (a : num) (u : R) : num :=
  (a + (da c + centred u * dda c))%js.

(** Both tests that guard the placement of a zone. *)
Definition zone_ready (a : num) (zp : Z) : bool :=
  negb (s_numZones c <? zp)%Z
  && Js.gt (a / zoneSpacing c - Js.of_Z zp)%js (Fin 0).

(** The [switch] on the zone variant. *)
Definition shifted (xs : num) (zone : Z) : num :=
  match zone with
  | 0%Z => (xs + zone_width (s_zoneWidths c) 0)%js
  | 1%Z => (xs + zone_width (s_zoneWidths c) 1)%js
  | 2%Z => (xs + zone_width (s_zoneWidths c) 2)%js
  | _ => xs
  end.

(** What one pass (body, then update) does from a finite angle: it
    takes a sample and then either passes the zone tests by, or draws
    and skips, or draws twice and places a zone. *)
Inductive iteration (s : loopState) : loopState → Prop :=
| iter_plain r :
    st_a s = Fin r →
    zone_ready (Fin r) (st_zonesPlaced s) = false →
    let k := st_rng s in
    iteration s
      {| st_a := advance (Fin r) (rnd (k + 2));
         st_zonesPlaced := st_zonesPlaced s;
         st_terrain := st_terrain s ++ [sample r (rnd k) (rnd (k + 1))];
         st_rng := k + 3;
         st_console := st_console s |}
| iter_skip r :
    st_a s = Fin r →
    zone_ready (Fin r) (st_zonesPlaced s) = true →
    let k := st_rng s in
    Js.draw_mod (rnd (k + 2)) 8 ≠ 1%Z →
    iteration s
      {| st_a := advance (Fin r) (rnd (k + 3));
         st_zonesPlaced := st_zonesPlaced s;
         st_terrain := st_terrain s ++ [sample r (rnd k) (rnd (k + 1))];
         st_rng := k + 4;
         st_console := st_console s |}
| iter_place r :
    st_a s = Fin r →
    zone_ready (Fin r) (st_zonesPlaced s) = true →
    let k := st_rng s in
    Js.draw_mod (rnd (k + 2)) 8 = 1%Z →
    let xz := shifted (Fin (sample_x r (rnd (k + 1))))
                (Js.draw_mod (rnd (k + 3)) 3) in
    iteration s
      {| st_a := advance (xz / Fin (s_scaleX c))%js (rnd (k + 4));
         st_zonesPlaced := (st_zonesPlaced s + 1)%Z;
         st_terrain :=
           st_terrain s ++ [sample r (rnd k) (rnd (k + 1));
                            Coord xz (Fin (sample_y r (rnd k)))];
         st_rng := k + 5;
         st_console := st_console s |}.

(** The nominal step [da], as a real number. *)
Definition da_r : R := (s_maxPhase c / IZR (s_numSamples c))%R.

(** The step taken for the draw [u]: [da + (2u - 1)·dda]. *)
Definition step_of (u : R) : R := (da_r + (u * 2 - 1) * (da_r * 0.4))%R.

(** The loop is left at an angle that is not below [maxPhase]. *)
Definition loop_exit (s : loopState) : Prop :=
  Js.lt (st_a s) (Fin (s_maxPhase c)) = false.

(** A bound on the absolute value of the first three zone widths. *)
Definition width_bound : R :=
  (Rabs (nth 0 (s_zoneWidths c) 0) + Rabs (nth 1 (s_zoneWidths c) 0)
   + Rabs (nth 2 (s_zoneWidths c) 0))%R.

(** How far back, at most, the placement of one zone moves the angle. *)
Definition back_bound : R :=
  ((Rabs (s_maxDevX c) + width_bound) / Rabs (s_scaleX c))%R.

(** The placements that the guard [zonesPlaced > numZones] still allows. *)
Definition zones_left (zp : Z) : R :=
  IZR (Z.max 0 (s_numZones c + 1 - zp)).

(** The distance left to [maxPhase], with the allowance for the zones. *)
Definition potential (r : R) (zp : Z) : R :=
  (s_maxPhase c - r + zones_left zp * back_bound)%R.

(** The state after a pass from the angle [r] that places no zone and
    makes no draw for one. *)
Definition after_plain (s : loopState) (r : R) : loopState :=
  let k := st_rng s in
  {| st_a := advance (Fin r) (rnd (k + 2));
     st_zonesPlaced := st_zonesPlaced s;
     st_terrain := st_terrain s ++ [sample r (rnd k) (rnd (k + 1))];
     st_rng := k + 3;
     st_console := st_console s |}.


(** The cursor on entry of the loop (without zones a pass makes three
    draws, the third one for its step) and bounds on the steps. *)
Variable k0 : nat.
Variables lo hi : R.

End Quantities.

(** ** Whole calls *)

(** The angle is a finite number, or [NaN] once a zone width was missing. *)
Definition angle_ok (a : num) : Prop := a = NaN ∨ ∃ r, a = Fin r.

(** The draws of [Math.random] lie in [0, 1). *)
Definition unit_draws (rnd : nat → R) : Prop := ∀ k, (0 <= rnd k < 1)%R.

(** The call [generateTerrain(o)] runs to its [return] with these final
    values of the variables. *)
Definition run_ends (rnd : nat → R) (o : options) (s : loopState) : Prop :=
  ∃ fuel, ∀ fuel', fuel ≤ fuel' → generateTerrain_run rnd fuel' o = Some s.


(** From the state [s] the loop runs to its end and leaves the state [s']. *)
Definition loop_ends (rnd : nat → R) (c : settings) (terms : gmap string num)
  (s s' : loopState) : Prop :=
  ∃ fuel, ∀ fuel', fuel ≤ fuel' → sample_loop rnd c terms fuel' s = Some s'.


(** ** Sampling without landing zones *)

(** The pass of the plain sampler: the sample is taken and pushed, the
    angle moves on, and nothing else happens. *)
Definition plain_pass (rnd : nat → R) (c : settings) (terms : gmap string num)
  (s : loopState) : loopState :=
  let a := st_a s in
  let (w, out) := wave c terms a in
  let y0 := (Fin (s_offsetY c) - w * Fin (s_scaleY c))%js in
  let x0 := (a * Fin (s_scaleX c))%js in
  let ys := (y0 + centred (rnd (st_rng s)) * Fin (s_maxDevY c))%js in
  let xs := (x0 + centred (rnd (S (st_rng s))) * Fin (s_maxDevX c))%js in
  {| st_a := (a + (da c + centred (rnd (S (S (st_rng s)))) * dda c))%js;
     st_zonesPlaced := st_zonesPlaced s;
     st_terrain := st_terrain s ++ [Coord xs ys];
     st_rng := S (S (S (st_rng s)));
     st_console := st_console s ++ out |}.

Fixpoint plain_loop (rnd : nat → R) (c : settings) (terms : gmap string num)
  (fuel : nat) (s : loopState) : option loopState :=
  match fuel with
  | O => None
  | S fuel' =>
      if Js.lt (st_a s) (Fin (s_maxPhase c))
      then plain_loop rnd c terms fuel' (plain_pass rnd c terms s)
      else Some s
  end.

(** The plain sampled sequence of a call: the terms are drawn as in
    [generateTerrain], then the plain loop runs from [a = 0]. *)
Definition plain_run (rnd : nat → R) (fuel : nat) (o : options)
  : option loopState :=
  let c := read_options o in
  let (terms, cur) := draw_terms rnd c in
  plain_loop rnd c terms fuel (initial_state cur).

(** ** Without deviation: samples on the curve, zones beside it *)



(** The end of a zone of width [w] that starts at the point of angle [r]:
    the same [y], the [x] moved by [w]. *)
Definition zone_end (c : settings) (wv : R → R) (r w : R) : coord :=
  Coord (Fin (r * s_scaleX c + w)) (Fin (s_offsetY c - wv r * s_scaleY c)).


(** ** Draws and options of the examples *)

(** The stream whose every draw is 1/2: no jitter, no deviation. *)
Definition half_draws : nat → R := λ _, (1 / 2)%R.

(** The stream whose every draw is 1/100: [Math.floor(u * 100)] is 1, so
    that every flag is 1, every zone test that draws places a zone, and
    the zone is the second variant. *)
Definition hundredth_draws : nat → R := λ _, (1 / 100)%R.

(** The stream whose every draw is 0: every step is the shortest one. *)
Definition zero_draws : nat → R := λ _, 0%R.


(** The empty [options] object: every setting takes its default. *)
Definition no_options : options :=
  Options None None None None None None None None None None.

(** Four samples, no zone, the other settings by default. *)
Definition four_samples : options :=
  Options None None (Some 4%Z) None None None None None None None.




(** The term set [{s1: 1, c1: 0}]. *)
Definition one_sine_term : gmap string num :=
  <[key "c" 1 := Fin 0]> (<[key "s" 1 := Fin 1]> ∅).

(** ** More on the wave function *)


(** ** More draws and options for the examples *)

(** A negative [maxPhase], the other settings by default. *)
Definition negative_phase_options : options :=
  Options None (Some (-1)%R) None None None None None None None None.

(** A negative [numSamples], the other settings by default. *)
Definition negative_samples_options : options :=
  Options None None (Some (-5)%Z) None None None None None None None.

(** ** The coordinates of the array returned *)



(** The [x] of the coordinate is within the deviation of the image
    [0 <= x < maxPhase·scaleX] of the domain. *)
Definition x_in_range (c : settings) (p : coord) : Prop :=
  ∃ a, x p = Fin a ∧
       (- s_maxDevX c <= a < s_maxPhase c * s_scaleX c + s_maxDevX c)%R.

(** An array of finite samples, [k] of them followed by the end of a flat
    zone: the same [y], the [x] moved by one of the widths [ws]. *)
Inductive flat_zones (ws : list R) : list coord → Z → Prop :=
| flat_nil : flat_zones ws [] 0
| flat_sample t k a b :
    flat_zones ws t k → flat_zones ws (t ++ [Coord (Fin a) (Fin b)]) k
| flat_zone t k a b w :
    flat_zones ws t k → w ∈ ws →
    flat_zones ws
      (t ++ [Coord (Fin a) (Fin b); Coord (Fin (a + w)) (Fin b)]) (k + 1).

(** ** The path drawn *)

(** The points of the path that the calls trace, in order. *)
Fixpoint path_points (calls : list canvasCall) : list coord :=
  match calls with
  | [] => []
  | MoveTo px py :: calls' => Coord px py :: path_points calls'
  | LineTo px py :: calls' => Coord px py :: path_points calls'
  | _ :: calls' => path_points calls'
  end.

(** The calls before the path and the call after it. *)
Definition draw_prologue : list canvasCall :=
  [ClearRect (Fin 0) (Fin 0) (Fin CANVAS_WIDTH_PX) (Fin CANVAS_HEIGHT_PX);
   SetStrokeStyle "#000000";
   BeginPath].


(** What the range of [x] rests on without zones: the angle is finite and
    not negative, and no zone is counted. *)
Definition range_invariant (c : settings) (s : loopState) : Prop :=
  ∃ r, st_a s = Fin r ∧ (0 <= r)%R ∧ st_zonesPlaced s = 0%Z ∧
       Forall (x_in_range c) (st_terrain s).

(** A form with the values of the page: six terms, 200 samples, four
    zones. *)
Definition page_form : form :=
  Form (Some 6%Z) (Some 200%Z) (Some 40%Z) (Some 2%Z) (Some 3%Z) (Some 4%Z)
    30 40 50.

(** A form without deviation and without zones. *)
Definition plain_form : form :=
  Form (Some 6%Z) (Some 200%Z) (Some 40%Z) (Some 0%Z) (Some 0%Z) None
    30 40 50.

(** A form that asks for a negative number of samples. *)
Definition negative_samples_form : form :=
  Form (Some 6%Z) (Some (-5)%Z) (Some 40%Z) (Some 2%Z) (Some 3%Z) (Some 4%Z)
    30 40 50.

(** An option with the value 0 left out. *)
Definition nonzero {A : Type} `{EqDecision A} (zero : A) (v : option A) : option A :=
  match v with
  | Some a => if decide (a = zero) then None else Some a
  | None => None
  end.

(** The options [o] with every number that is 0 left out. *)
Definition without_zeros (o : options) : options :=
  {| numTerms := nonzero 0%Z (numTerms o);
     maxPhase := nonzero 0%R (maxPhase o);
     numSamples := nonzero 0%Z (numSamples o);
     scaleX := nonzero 0%R (scaleX o);
     scaleY := nonzero 0%R (scaleY o);
     offsetY := nonzero 0%R (offsetY o);
     maxDeviationX := nonzero 0%R (maxDeviationX o);
     maxDeviationY := nonzero 0%R (maxDeviationY o);
     numZones := nonzero 0%Z (numZones o);
     zoneWidths := zoneWidths o |}.

(** ** Definitions for the statements in double precision *)

Module DoubleFacts.
Import Double.

(** The two numbers are equal, or they are the two zeros. *)
Definition same_number (a b : double) : Prop :=
  a = b ∨ (is_zero a = true ∧ is_zero b = true).

(** A flag as the number stored in the term set. *)
Definition flag (b : bool) : double := if b then one else zero.

(** [t] holds the flags [s] and [c] for the indices [1..n]. *)
Definition holds_flags (t : gmap string double) (s c : Z → bool) (n : Z)
  : Prop :=
  ∀ i : Z, (1 ≤ i ≤ n)%Z →
    t !! key "s" i = Some (flag (s i)) ∧ t !! key "c" i = Some (flag (c i)).

(** The engine's function returns finite doubles (a double is held by its
    one canonical mantissa and exponent). *)
Definition engine_ok (f : double → double) : Prop :=
  ∀ v, is_finite (f v) = true ∧ valid_binary prec emax (f v) = true.

(** What the pass at a counter adds to [y] when only the enabled
    harmonics are added, with the values [sv] and [cv] of the sine and of
    the cosine. *)
Definition add_enabled (s c : bool) (sv cv y : double) : double :=
  match s, c with
  | true, true => (y + (sv + cv))%dbl
  | true, false => (y + sv)%dbl
  | false, true => (y + cv)%dbl
  | false, false => y
  end.

(** The sum of the enabled harmonics, added in double precision from the
    counter [k] down to 1. *)
Fixpoint enabled_sum (sin_impl cos_impl : double → double) (s c : Z → bool)
  (a : double) (k : nat) (y : double) : double :=
  match k with
  | O => y
  | S k' =>
      let i := Z.of_nat k in
      enabled_sum sin_impl cos_impl s c a k'
        (add_enabled (s i) (c i) (sin sin_impl (of_Z i * a)%dbl)
           (cos cos_impl (of_Z i * a)%dbl) y)
  end.

(** The sample that a pass takes at the angle of [s]. *)
Definition sample_of sin_impl cos_impl rnd c terms (s : loopState) : coord :=
  let a := st_a s in
  let w := (wave sin_impl cos_impl c terms a).1 in
  Coord (a * s_scaleX c + centred (rnd (S (st_rng s))) * s_maxDevX c)%dbl
        (s_offsetY c - w * s_scaleY c
         + centred (rnd (st_rng s)) * s_maxDevY c)%dbl.

(** The test that a zone is due. *)
Definition zone_ready c (a : double) (zp : Z) : bool :=
  negb (s_numZones c <? zp)%Z
  && gt (a / zoneSpacing c - of_Z zp)%dbl zero.

(** The end of the zone that starts at the sample [p], for the variant
    drawn. *)
Definition zone_end c (p : coord) (variant : option Z) : coord :=
  match variant with
  | Some 0%Z => Coord (x p + zone_width (s_zoneWidths c) 0)%dbl (y p)
  | Some 1%Z => Coord (x p + zone_width (s_zoneWidths c) 1)%dbl (y p)
  | Some 2%Z => Coord (x p + zone_width (s_zoneWidths c) 2)%dbl (y p)
  | _ => p
  end.

(** The hundredth that a draw selects: [Math.floor(u * 100)]. *)
Definition hundredth (u : double) : option Z := floor (u * of_Z 100)%dbl.

(** The hundredths [0..99]. *)
Definition hundredths : list Z := seqZ 0 100.

(** The hundredths at which a zone that is due is placed. *)
Definition place_hundredths : list Z :=
  [1; 9; 17; 25; 33; 41; 49; 57; 65; 73; 81; 89; 97]%Z.

(** The hundredths that select the zone variant [v]. *)
Definition variant_hundredths (v : Z) : list Z :=
  filter (λ h, h `mod` 3 = v)%Z hundredths.



End DoubleFacts.

(** ** Example inputs in double precision *)

Module DoubleExamples.
Import Double.

Definition no_options : options :=
  Options None None None None None None None None None None.

Definition half : double := decimal 5 (-1).
Definition hundredth_part : double := decimal 1 (-2).

(** Every draw is 0.5: the flags are 0 and no step has jitter. *)
Definition half_draws (k : nat) : double := half.

(** Every draw is 0: the flags are 0 and every step is the shortest. *)
Definition zero_draws (k : nat) : double := zero.

(** Every draw is 0.25: the flags are 1 and every jitter is half of its
    bound, downwards. *)
Definition quarter_draws (k : nat) : double := decimal 25 (-2).

(** Every draw is 0.01: the flags are 1, every zone that is due is placed
    and takes the width [zoneWidths[1]]. *)
Definition hundredth_draws (k : nat) : double := hundredth_part.

(** Four samples over the default domain. *)
Definition four_samples : options :=
  Options None None (Some 4%Z) None None None None None None None.

(** One term, two samples over the domain [0, 1), and a value of its own
    for each scale, for the offset and for the two deviations. *)
Definition jitter_options : options :=
  Options (Some 1%Z) (Some one) (Some 2%Z) (Some (of_Z 10)) (Some (of_Z 40))
    (Some (of_Z 400)) (Some (of_Z 2)) (Some (of_Z 3)) None None.

(** The same without deviations. *)
Definition plain_options : options :=
  Options (Some 1%Z) (Some one) (Some 2%Z) (Some (of_Z 10)) (Some (of_Z 40))
    (Some (of_Z 400)) None None None None.

(** Two zones over the default domain. *)
Definition two_zones : options :=
  Options None None None None None None None None (Some 2%Z)
    (Some [of_Z 30; of_Z 40; of_Z 50]).

(** A domain of 1e17 with as many samples, one zone, and zones that end
    at 99999999999999984, the double below 1e17. *)
Definition stall_options : options :=
  Options None (Some (decimal 1 17)) (Some (10 ^ 17)%Z) (Some one) None None
    None None (Some 1%Z)
    (Some [of_Z 99999999999999984; of_Z 99999999999999984;
           of_Z 99999999999999984]).

(** The angle at which the run of [stall_options] stays. *)
Definition stall_angle : double := of_Z 99999999999999984.

(** The number [k * 2^-1074], a multiple of the smallest double. *)
Definition tiny (k : Z) : double := binary_normalize prec emax k (-1074) false.

(** A domain of [6e-323] (12 times the smallest double) in five zones:
    [zoneSpacing] is 2.4 of these units and rounds to 2.  The zones have
    the width [-5.4e-323] (11 units back). *)
Definition tiny_options : options :=
  Options (Some 1%Z) (Some (tiny 12)) (Some 1%Z) (Some one) None None
    None None (Some 5%Z) (Some [tiny (-11); tiny (-11); tiny (-11)]).

(** Draws for [tiny_options]: two flags 0; a first pass at [a = 0], where
    no zone is due, with a step of 7 units; then six passes that each place
    a zone (the draws 0.01 and 0.01), with steps of 7, 17, 12, 12, 11 and 12
    units. *)
Definition six_zone_draws (k : nat) : double :=
  let h := half in
  let p := hundredth_part in
  default h
    ([h; h;
      h; h; zero;
      h; h; p; p; zero;
      h; h; p; p; decimal 99 (-2);
      h; h; p; p; h;
      h; h; p; p; h;
      h; h; p; p; decimal 4 (-1);
      h; h; p; p; h] !! k).


(** The term set with the four flags of the indices 1 and 2 cleared. *)
Definition cleared_flags : gmap string double :=
  <[key "s" 1 := zero]> (<[key "c" 1 := zero]>
  (<[key "s" 2 := zero]> (<[key "c" 2 := zero]> ∅))).

(** An engine that is right at the angles 1 and 2, and returns 0 and 1
    elsewhere. *)
Definition table_sin (v : double) : double :=
  if strict_eq v one then decimal 8414709848078965 (-16)
  else if strict_eq v (of_Z 2) then decimal 9092974268256817 (-16)
  else zero.

Definition table_cos (v : double) : double :=
  if strict_eq v one then decimal 5403023058681398 (-16)
  else if strict_eq v (of_Z 2) then decimal (-4161468365471424) (-16)
  else one.

(** A state of the loop of [two_zones] at the angle 1, where the first
    zone is due. *)
Definition due_state : loopState :=
  {| st_a := one; st_zonesPlaced := 0; st_terrain := []; st_rng := 0;
     st_console := [] |}.

End DoubleExamples.

(** * Properties *)

(** ** The wave function as a sum of harmonics *)

Lemma wave_term_harmonic t s c n a i :
  holds_terms t s c n → (1 ≤ i ≤ n)%Z →
  wave_term t (Fin a) i = Fin (harmonic s c a i).
Proof.
  intros Ht Hi. destruct (Ht i Hi) as [Hs Hc].
  unfold wave_term, term_flag, harmonic. rewrite Hs, Hc. reflexivity.
Qed.

Lemma wave_loop_harmonic t s c n a k y0 :
  holds_terms t s c n → (Z.of_nat k ≤ n)%Z →
  wave_loop t (Fin a) k (Fin y0) = Fin (y0 + harmonic_sum s c a k).
Proof.
  intros Ht. revert y0. induction k as [|k IH]; intros y0 Hk.
  - simpl. f_equal. lra.
  - cbn [wave_loop harmonic_sum].
    rewrite (wave_term_harmonic t s c n) by (auto; lia).
    cbn [Js.add]. rewrite IH by lia. f_equal. lra.
Qed.

Lemma makeWaveFunction_value t s c (n : Z) (a : R) :
  holds_terms t s c n →
  (makeWaveFunction t n (Fin a)).1 = Fin (harmonic_sum s c a (Z.to_nat n)).
Proof.
  intros Ht. unfold makeWaveFunction. cbn [fst].
  destruct (Z.le_gt_cases 0 n) as [Hn|Hn].
  - rewrite (wave_loop_harmonic t s c n) by (auto; lia).
    f_equal. lra.
  - replace (Z.to_nat n) with O by lia. reflexivity.
Qed.

(** ** The terms drawn by [generateTerrain] *)

Lemma key_inj p i j : key p i = key p j → i = j.
Proof.
  unfold key. intros H. apply (inj (String.app p)) in H.
  by apply (inj pretty) in H.
Qed.

Lemma key_s_c i j : key "s" i ≠ key "c" j.
Proof. unfold key. intros H. inversion H. Qed.

Lemma terms_loop_cursor rnd k i0 t0 cur :
  (terms_loop rnd k i0 t0 cur).2 = (cur + 2 * k)%nat.
Proof.
  revert i0 t0 cur. induction k as [|k IH]; intros i0 t0 cur; cbn [terms_loop].
  - cbn. lia.
  - rewrite IH. lia.
Qed.

Lemma terms_loop_before rnd k i0 t0 cur p i :
  (p = "s" ∨ p = "c") → (i < i0)%Z →
  (terms_loop rnd k i0 t0 cur).1 !! key p i = t0 !! key p i.
Proof.
  intros Hp. revert i0 t0 cur.
  induction k as [|k IH]; intros i0 t0 cur Hi; cbn [terms_loop]; [done|].
  rewrite IH by lia.
  assert (Hs : key "s" i0 ≠ key p i).
  { destruct Hp as [-> | ->]; [|apply key_s_c].
    intros H. apply key_inj in H. lia. }
  assert (Hc : key "c" i0 ≠ key p i).
  { destruct Hp as [-> | ->]; [intros H; symmetry in H; by apply key_s_c in H|].
    intros H. apply key_inj in H. lia. }
  by rewrite !lookup_insert_ne.
Qed.

Lemma terms_loop_stored rnd k i0 t0 cur i :
  (i0 ≤ i < i0 + Z.of_nat k)%Z →
  let t := (terms_loop rnd k i0 t0 cur).1 in
  let d := (cur + 2 * Z.to_nat (i - i0))%nat in
  t !! key "s" i = Some (Js.of_Z (Js.draw_mod (rnd d) 2)) ∧
  t !! key "c" i = Some (Js.of_Z (Js.draw_mod (rnd (S d)) 2)).
Proof.
  revert i0 t0 cur. induction k as [|k IH]; intros i0 t0 cur Hi; [lia|].
  cbn [terms_loop]. cbv zeta.
  destruct (decide (i = i0)) as [->|Hne].
  - rewrite !terms_loop_before by (auto; lia).
    replace (i0 - i0)%Z with 0%Z by lia.
    replace (cur + 2 * Z.to_nat 0)%nat with cur by lia.
    rewrite lookup_insert_eq.
    rewrite lookup_insert_ne by (intros H; symmetry in H; by apply key_s_c in H).
    by rewrite lookup_insert_eq.
  - specialize (IH (i0 + 1)%Z
      (<[key "c" i0 := Js.of_Z (Js.draw_mod (rnd (S cur)) 2)]>
         (<[key "s" i0 := Js.of_Z (Js.draw_mod (rnd cur) 2)]> t0))
      (S (S cur)) ltac:(lia)).
    cbv zeta in IH.
    replace (cur + 2 * Z.to_nat (i - i0))%nat
      with (S (S cur) + 2 * Z.to_nat (i - (i0 + 1)))%nat by lia.
    exact IH.
Qed.

Lemma draw_terms_holds rnd c :
  holds_terms (draw_terms rnd c).1 (drawn_s rnd) (drawn_c rnd) (s_numTerms c).
Proof.
  intros i Hi. unfold draw_terms, drawn_s, drawn_c.
  pose proof (terms_loop_stored rnd (Z.to_nat (s_numTerms c)) 1 ∅ O i
                ltac:(lia)) as H.
  cbv zeta in H. exact H.
Qed.

Lemma draw_terms_cursor rnd c :
  (draw_terms rnd c).2 = (2 * Z.to_nat (s_numTerms c))%nat.
Proof. unfold draw_terms. rewrite terms_loop_cursor. lia. Qed.

(** ** The comparison with [NaN] *)

Lemma strict_eq_NaN a : Js.strict_eq a NaN = false.
Proof. by destruct a. Qed.

Lemma makeWaveFunction_console t n a : (makeWaveFunction t n a).2 = [].
Proof. unfold makeWaveFunction. cbn [snd]. by rewrite strict_eq_NaN. Qed.

(** ** Arithmetic on finite numbers *)

Lemma div_fin r s : s ≠ 0%R → (Fin r / Fin s)%js = Fin (r / s).
Proof. intros Hs. unfold Js.div. by rewrite decide_False. Qed.

Lemma lt_fin r s : Js.lt (Fin r) (Fin s) = bool_decide (r < s)%R.
Proof. reflexivity. Qed.

(** The special values at work: [1 / 0] is [Infinity], [0 / 0] is [NaN],
    a finite number over [Infinity] is 0, and [NaN] is below nothing. *)
Example one_over_zero : (Fin 1 / Fin 0)%js = PInf.
Proof.
  unfold Js.div, Js.inf_signed.
  rewrite decide_True by done. by rewrite decide_True by lra.
Qed.

Example zero_over_zero : (Fin 0 / Fin 0)%js = NaN.
Proof.
  unfold Js.div, Js.inf_signed.
  rewrite decide_True by done. by rewrite !decide_False by lra.
Qed.

Example finite_over_infinity r : (Fin r / (Fin 1 / Fin 0))%js = Fin 0.
Proof. by rewrite one_over_zero. Qed.

Example NaN_below_nothing a : Js.lt NaN a = false.
Proof. by destruct a. Qed.


(** Bounds on a quotient from a bound on the absolute value. *)
Lemma Rabs_bounds a B : (Rabs a <= B → - B <= a <= B)%R.
Proof. unfold Rabs. destruct (Rcase_abs a); lra. Qed.

Lemma quotient_bound a b B :
  b ≠ 0%R → (Rabs a <= B)%R → (- (B / Rabs b) <= a / b)%R.
Proof.
  intros Hb Ha. apply Rabs_bounds in Ha.
  unfold Rabs. destruct (Rcase_abs b) as [Hneg|Hpos].
  - assert (0 < / - b)%R by (apply Rinv_0_lt_compat; lra).
    replace (a / b)%R with (- a * / - b)%R by (field; lra).
    unfold Rdiv. nra.
  - assert (0 < / b)%R by (apply Rinv_0_lt_compat; lra).
    unfold Rdiv. nra.
Qed.

Lemma quotient_nonneg a b : (0 <= a)%R → b ≠ 0%R → (0 <= a / Rabs b)%R.
Proof.
  intros Ha Hb. pose proof (Rabs_pos_lt b Hb).
  assert (0 < / Rabs b)%R by (by apply Rinv_0_lt_compat).
  unfold Rdiv. nra.
Qed.

(** ** One pass of the sampling loop *)

Section Iteration.

Variable rnd : nat → R.
Variable c : settings.
Variable terms : gmap string num.

(** The coefficients stored in [terms]. *)
Variables cs cc : Z → R.
Hypothesis terms_ok : holds_terms terms cs cc (s_numTerms c).

Lemma wave_fin r : wave c terms (Fin r) = (Fin (base c cs cc r), []).
Proof.
  unfold wave. rewrite (surjective_pairing (makeWaveFunction _ _ _)).
  by rewrite makeWaveFunction_console, (makeWaveFunction_value _ cs cc).
Qed.

Lemma loop_iteration s r :
  st_a s = Fin r →
  iteration rnd c cs cc s (loop_update rnd c (loop_body rnd c terms s)).
Proof.
  intros Ha. unfold loop_body. rewrite Ha, wave_fin.
  cbn [Js.mul Js.sub Js.add Js.neg centred].
  unfold zone_part. cbn [st_a st_zonesPlaced st_terrain st_rng st_console].
  fold (sample_x c r (rnd (S (st_rng s)))).
  pose proof (iter_plain rnd c cs cc s r Ha) as Hplain.
  pose proof (iter_skip rnd c cs cc s r Ha) as Hskip.
  pose proof (iter_place rnd c cs cc s r Ha) as Hplace.
  cbv zeta in Hplain, Hskip, Hplace.
  rewrite ?Nat.add_succ_r, ?Nat.add_0_r in Hplain.
  rewrite ?Nat.add_succ_r, ?Nat.add_0_r in Hskip.
  rewrite ?Nat.add_succ_r, ?Nat.add_0_r in Hplace.
  unfold zone_ready in Hplain, Hskip, Hplace.
  destruct (s_numZones c <? st_zonesPlaced s)%Z;
    cbn [negb andb] in Hplain, Hskip, Hplace.
  { rewrite app_nil_r. by apply Hplain. }
  destruct (Js.gt _ _).
  2: { rewrite app_nil_r. by apply Hplain. }
  destruct (Js.draw_mod (rnd (S (S (st_rng s)))) 8 =? 1)%Z eqn:Hdraw;
    cbn [negb].
  - apply Z.eqb_eq in Hdraw. rewrite app_nil_r, <- app_assoc.
    by apply Hplace.
  - apply Z.eqb_neq in Hdraw. rewrite app_nil_r. by apply Hskip.
Qed.

End Iteration.

(** ** The sampling loop *)

Section Loop.

Variable rnd : nat → R.
Variable c : settings.
Variable terms : gmap string num.
Variables cs cc : Z → R.
Hypothesis terms_ok : holds_terms terms cs cc (s_numTerms c).

(** After the defaults, neither [numSamples] nor [scaleX] is zero. *)
Hypothesis samples_nz : s_numSamples c ≠ 0%Z.
Hypothesis scale_nz : s_scaleX c ≠ 0%R.

Local Abbreviation pass := (iteration rnd c cs cc).
Local Abbreviation loop := (sample_loop rnd c terms).

Lemma da_fin : da c = Fin (da_r c).
Proof.
  unfold da, Js.of_Z. rewrite div_fin; [done|].
  by apply not_0_IZR.
Qed.

Lemma advance_fin r u : advance c (Fin r) u = Fin (r + step_of c u).
Proof. unfold advance, dda. by rewrite da_fin. Qed.

Lemma step_of_range u :
  (0 < da_r c)%R → (0 <= u < 1)%R →
  (0.6 * da_r c <= step_of c u < 1.4 * da_r c)%R.
Proof. unfold step_of. intros Hd Hu. nra. Qed.

Lemma zone_width_cases ws i :
  zone_width ws i = NaN ∨ ∃ w, ws !! i = Some w ∧ zone_width ws i = Fin w.
Proof. unfold zone_width. destruct (ws !! i); eauto. Qed.

(** The [x] of a zone end: the sample's [x], or that [x] plus one of
    the first three widths, or [NaN] if that width is missing. *)
Lemma shifted_cases xs z :
  shifted c (Fin xs) z = Fin xs ∨
  shifted c (Fin xs) z = NaN ∨
  ∃ (i : nat) w, i < 3 ∧ z = Z.of_nat i ∧ s_zoneWidths c !! i = Some w ∧
                 shifted c (Fin xs) z = Fin (xs + w).
Proof.
  unfold shifted.
  destruct z as [|[[]|[]|]|]; auto.
  all: match goal with
       | |- context [zone_width ?ws ?i] =>
           destruct (zone_width_cases ws i) as [->|(w & Hw & ->)];
           [by auto|];
           right; right; exists i, w; by repeat split; try lia
       end.
Qed.

Lemma iteration_angle_ok s s' : pass s s' → angle_ok (st_a s').
Proof.
  intros [r Ha Hz|r Ha Hz k Hd|r Ha Hz k Hd xz]; cbn [st_a].
  1,2: rewrite advance_fin; right; eauto.
  subst xz.
  destruct (shifted_cases (sample_x c r (rnd (k + 1)))
              (Js.draw_mod (rnd (k + 3)) 3))
    as [->|[->|(i & w & _ & _ & _ & ->)]].
  - rewrite div_fin, advance_fin by done. right; eauto.
  - by left.
  - rewrite div_fin, advance_fin by done. right; eauto.
Qed.

(** More fuel does not change a result. *)
Lemma sample_loop_mono fuel fuel' s s' :
  loop fuel s = Some s' → fuel ≤ fuel' →
  loop fuel' s = Some s'.
Proof.
  revert fuel' s. induction fuel as [|fuel IH]; intros fuel' s; [done|].
  intros H Hle. destruct fuel' as [|fuel']; [lia|].
  cbn [sample_loop] in *.
  destruct (Js.lt _ _); [|done]. apply IH; [done|lia].
Qed.

(** Invariant rule: a property that holds on entry and that every pass
    from a finite angle below [maxPhase] preserves holds on exit. *)
Lemma sample_loop_invariant (P : loopState → Prop) :
  (∀ s s' r, P s → st_a s = Fin r → (r < s_maxPhase c)%R →
             pass s s' → P s') →
  ∀ fuel s s', angle_ok (st_a s) → P s →
    loop fuel s = Some s' →
    P s' ∧ angle_ok (st_a s') ∧ loop_exit c s'.
Proof.
  intros Hstep. induction fuel as [|fuel IH]; intros s s' Hok HP; [done|].
  cbn [sample_loop].
  destruct (Js.lt (st_a s) (Fin (s_maxPhase c))) eqn:Hlt.
  - destruct Hok as [Hn|[r Hr]]; [by rewrite Hn in Hlt|].
    rewrite Hr, lt_fin in Hlt. apply bool_decide_eq_true in Hlt.
    pose proof (loop_iteration rnd c terms cs cc terms_ok s r Hr) as Hit.
    apply IH; [by eapply iteration_angle_ok|by eapply Hstep].
  - intros [= <-]. by repeat split.
Qed.

End Loop.


(** ** Termination of the sampling loop *)

Section Termination.

Variable rnd : nat → R.
Variable c : settings.
Variable terms : gmap string num.
Variables cs cc : Z → R.
Hypothesis terms_ok : holds_terms terms cs cc (s_numTerms c).
Hypothesis rnd_range : ∀ k, (0 <= rnd k < 1)%R.
Hypothesis scale_nz : s_scaleX c ≠ 0%R.
Hypothesis phase_pos : (0 < s_maxPhase c)%R.
Hypothesis samples_pos : (1 ≤ s_numSamples c)%Z.

Local Abbreviation pass := (iteration rnd c cs cc).
Local Abbreviation loop := (sample_loop rnd c terms).

Lemma da_r_pos : (0 < da_r c)%R.
Proof.
  unfold da_r. apply Rdiv_lt_0_compat; [done|].
  apply IZR_lt. lia.
Qed.

Lemma back_bound_nonneg : (0 <= back_bound c)%R.
Proof.
  unfold back_bound, width_bound.
  apply quotient_nonneg; [|done].
  pose proof (Rabs_pos (s_maxDevX c)).
  pose proof (Rabs_pos (nth 0 (s_zoneWidths c) 0%R)).
  pose proof (Rabs_pos (nth 1 (s_zoneWidths c) 0%R)).
  pose proof (Rabs_pos (nth 2 (s_zoneWidths c) 0%R)).
  lra.
Qed.

Lemma zones_left_nonneg zp : (0 <= zones_left c zp)%R.
Proof. unfold zones_left. apply IZR_le. lia. Qed.

Lemma width_bound_ge i w :
  i < 3 → s_zoneWidths c !! i = Some w → (Rabs w <= width_bound c)%R.
Proof.
  intros Hi Hw. unfold width_bound.
  pose proof (Rabs_pos (nth 0 (s_zoneWidths c) 0%R)).
  pose proof (Rabs_pos (nth 1 (s_zoneWidths c) 0%R)).
  pose proof (Rabs_pos (nth 2 (s_zoneWidths c) 0%R)).
  assert (w = nth i (s_zoneWidths c) 0%R) as ->.
  { symmetry. by apply nth_lookup_Some. }
  destruct i as [|[|[|i]]]; [lra..|lia].
Qed.

(** The angle at which sampling resumes after a zone of width [w]. *)
Lemma zone_end_angle r u w :
  (0 <= u < 1)%R → (Rabs w <= width_bound c)%R →
  (r - back_bound c <= (sample_x c r u + w) / s_scaleX c)%R.
Proof.
  intros Hu Hw. unfold sample_x.
  set (j := ((u * 2 - 1) * s_maxDevX c)%R).
  replace ((r * s_scaleX c + j + w) / s_scaleX c)%R
    with (r + (j + w) / s_scaleX c)%R by (by field).
  assert (Rabs (j + w) <= Rabs (s_maxDevX c) + width_bound c)%R as Hb.
  { eapply Rle_trans; [apply Rabs_triang|].
    apply Rplus_le_compat; [|done].
    unfold j. rewrite Rabs_mult.
    assert (Rabs (u * 2 - 1) <= 1)%R by (apply Rabs_le; lra).
    pose proof (Rabs_pos (s_maxDevX c)). nra. }
  apply (quotient_bound _ (s_scaleX c)) in Hb; [|done].
  fold (back_bound c) in Hb. lra.
Qed.

(** Every pass brings the potential c down by at least the shortest step. *)
Lemma iteration_potential s s' r :
  st_a s = Fin r → pass s s' →
  st_a s' = NaN ∨
  ∃ r', st_a s' = Fin r' ∧
    (potential c r' (st_zonesPlaced s')
     <= potential c r (st_zonesPlaced s) - 0.6 * da_r c)%R.
Proof.
  intros Ha Hit. pose proof da_r_pos as Hda.
  assert (samples_nz : s_numSamples c ≠ 0%Z) by lia.
  destruct Hit as [r0 Ha0 Hz|r0 Ha0 Hz k Hd|r0 Ha0 Hz k Hd xz];
    cbn [st_a st_zonesPlaced];
    rewrite Ha in Ha0; injection Ha0 as <-.
  1,2: right; rewrite advance_fin by done; eexists; split; [done|].
  1,2: match goal with
       | |- context [step_of c ?u] =>
           pose proof (step_of_range c u Hda (rnd_range _))
       end; unfold potential; lra.
  (* a zone is placed *)
  unfold zone_ready in Hz. apply andb_true_iff in Hz as [Hguard _].
  apply negb_true_iff, Z.ltb_ge in Hguard.
  assert (zones_left c (st_zonesPlaced s + 1)
          = zones_left c (st_zonesPlaced s) - 1)%R as Hleft.
  { unfold zones_left. rewrite <- minus_IZR. f_equal. lia. }
  pose proof back_bound_nonneg as Hbb.
  assert (∀ w, (Rabs w <= width_bound c)%R →
    ∃ r', advance c (Fin ((sample_x c r (rnd (k + 1)) + w) / s_scaleX c))
            (rnd (k + 4)) = Fin r' ∧
      (potential c r' (st_zonesPlaced s + 1)
       <= potential c r (st_zonesPlaced s) - 0.6 * da_r c)%R) as Hw.
  { intros w Hw. rewrite advance_fin by done. eexists; split; [done|].
    pose proof (zone_end_angle r _ w (rnd_range (k + 1)) Hw).
    pose proof (step_of_range c _ Hda (rnd_range (k + 4))).
    unfold potential. rewrite Hleft. lra. }
  subst xz.
  destruct (shifted_cases c (sample_x c r (rnd (k + 1)))
              (Js.draw_mod (rnd (k + 3)) 3))
    as [->|[->|(i & w & Hi & _ & Hlook & ->)]].
  - right. rewrite div_fin by done.
    destruct (Hw 0%R) as (r' & Hr' & Hpot).
    { rewrite Rabs_R0. unfold width_bound.
      pose proof (Rabs_pos (nth 0 (s_zoneWidths c) 0%R)).
      pose proof (Rabs_pos (nth 1 (s_zoneWidths c) 0%R)).
      pose proof (Rabs_pos (nth 2 (s_zoneWidths c) 0%R)). lra. }
    rewrite Rplus_0_r in Hr'. eauto.
  - by left.
  - right. rewrite div_fin by done. apply Hw. by eapply width_bound_ge.
Qed.

(** With a potential c of at most [n] shortest steps, [n] passes and one
    last test of the condition finish the loop. *)
Lemma sample_loop_bounded n s :
  angle_ok (st_a s) →
  (∀ r, st_a s = Fin r →
        (potential c r (st_zonesPlaced s) <= INR n * (0.6 * da_r c))%R) →
  ∃ s', loop (S n) s = Some s'.
Proof.
  assert (samples_nz : s_numSamples c ≠ 0%Z) by lia.
  pose proof da_r_pos as Hda. pose proof back_bound_nonneg as Hbb.
  revert s. induction n as [|n IH]; intros s Hok Hpot.
  all: cbn [sample_loop].
  all: destruct (Js.lt (st_a s) (Fin (s_maxPhase c))) eqn:Hlt; [|by eauto].
  all: destruct Hok as [Hn|[r Hr]]; [by rewrite Hn in Hlt|].
  all: specialize (Hpot r Hr); rewrite Hr, lt_fin in Hlt.
  all: apply bool_decide_eq_true in Hlt.
  all: pose proof (zones_left_nonneg (st_zonesPlaced s)) as Hzl.
  - exfalso. unfold potential in Hpot. cbn [INR] in Hpot. nra.
  - pose proof (loop_iteration rnd c terms cs cc terms_ok s r Hr) as Hit.
    apply IH; [by eapply iteration_angle_ok|].
    intros r' Hr'.
    destruct (iteration_potential _ _ r Hr Hit) as [Hn|(r'' & Hr'' & Hle)].
    { by rewrite Hn in Hr'. }
    rewrite Hr' in Hr''. injection Hr'' as <-.
    rewrite S_INR in Hpot. lra.
Qed.

Lemma sample_loop_terminates s :
  angle_ok (st_a s) → ∃ fuel s', loop fuel s = Some s'.
Proof.
  intros Hok. pose proof da_r_pos as Hda.
  destruct Hok as [Hn|[r Hr]].
  - exists 1. apply sample_loop_bounded; [by left|].
    intros r Hr. by rewrite Hn in Hr.
  - set (q := (potential c r (st_zonesPlaced s) / (0.6 * da_r c))%R).
    exists (S (Z.to_nat (up q))).
    apply sample_loop_bounded; [right; eauto|].
    intros r' Hr'. rewrite Hr in Hr'. injection Hr' as <-.
    destruct (archimed q) as [Hup _].
    assert (IZR (up q) <= INR (Z.to_nat (up q)))%R as Hn.
    { rewrite INR_IZR_INZ. apply IZR_le. lia. }
    assert (potential c r (st_zonesPlaced s) = q * (0.6 * da_r c))%R as ->.
    { unfold q. field. lra. }
    nra.
Qed.

End Termination.

(** ** Whole calls *)

Lemma or_default_nz {A} `{EqDecision A} (zero : A) o d :
  d ≠ zero → or_default zero o d ≠ zero.
Proof. intros Hd. unfold or_default. destruct o; [by case_decide|done]. Qed.

Lemma read_options_samples_nz o : s_numSamples (read_options o) ≠ 0%Z.
Proof. by apply or_default_nz. Qed.

Lemma read_options_scale_nz o : s_scaleX (read_options o) ≠ 0%R.
Proof. apply or_default_nz. lra. Qed.

Lemma generateTerrain_run_eq rnd fuel o :
  let c := read_options o in
  generateTerrain_run rnd fuel o
  = sample_loop rnd c (draw_terms rnd c).1 fuel
      (initial_state (2 * Z.to_nat (s_numTerms c))).
Proof.
  cbv zeta. unfold generateTerrain_run.
  rewrite (surjective_pairing (draw_terms _ _)).
  by rewrite draw_terms_cursor.
Qed.

Lemma run_ends_intro rnd o fuel s :
  generateTerrain_run rnd fuel o = Some s → run_ends rnd o s.
Proof.
  intros H. exists fuel. intros fuel' Hle.
  rewrite generateTerrain_run_eq in *.
  eapply sample_loop_mono; eauto.
Qed.


Lemma generateTerrain_run_terminates rnd o :
  unit_draws rnd →
  (0 < s_maxPhase (read_options o))%R →
  (1 ≤ s_numSamples (read_options o))%Z →
  ∃ s, run_ends rnd o s.
Proof.
  intros Hrnd Hphase Hsamples.
  destruct (sample_loop_terminates rnd (read_options o)
              (draw_terms rnd (read_options o)).1 _ _
              (draw_terms_holds rnd _) Hrnd (read_options_scale_nz o)
              Hphase Hsamples
              (initial_state (2 * Z.to_nat (s_numTerms (read_options o)))))
    as (fuel & s & Hs).
  { right. by exists 0%R. }
  exists s. apply (run_ends_intro _ _ fuel).
  by rewrite generateTerrain_run_eq.
Qed.

(** ** Sampling without landing zones *)

(** With [numZones = 0] the spacing of the zones is an infinity (or [NaN]),
    the quotient [a / zoneSpacing] is zero (or [NaN]) and the test of the
    zone branch fails, whatever the angle. *)
Lemma zone_ready_no_zones c a : s_numZones c = 0%Z → zone_ready c a 0 = false.
Proof.
  intros Hz. unfold zone_ready, zoneSpacing, Js.of_Z. rewrite Hz.
  cbn [Z.ltb Z.compare negb andb Js.div].
  rewrite decide_True by done.
  unfold Js.gt, Js.inf_signed.
  repeat case_decide; destruct a; cbn; try done.
  all: apply bool_decide_eq_false; lra.
Qed.

Lemma zone_part_no_zones rnd c s xs ys :
  s_numZones c = 0%Z → st_zonesPlaced s = 0%Z → zone_part rnd c s xs ys = s.
Proof.
  intros Hz Hp. pose proof (zone_ready_no_zones c (st_a s) Hz) as Hr.
  unfold zone_ready in Hr. unfold zone_part. rewrite Hp, Hz in *.
  cbn [Z.ltb Z.compare negb andb] in *. by rewrite Hr.
Qed.

Lemma plain_pass_eq rnd c terms s :
  s_numZones c = 0%Z → st_zonesPlaced s = 0%Z →
  loop_update rnd c (loop_body rnd c terms s) = plain_pass rnd c terms s.
Proof.
  intros Hz Hp. unfold loop_body, plain_pass.
  destruct (wave c terms (st_a s)) as [w out].
  by rewrite zone_part_no_zones.
Qed.

Lemma plain_pass_zonesPlaced rnd c terms s :
  st_zonesPlaced (plain_pass rnd c terms s) = st_zonesPlaced s.
Proof. unfold plain_pass. by destruct (wave c terms (st_a s)). Qed.

Lemma plain_loop_eq rnd c terms fuel s :
  s_numZones c = 0%Z → st_zonesPlaced s = 0%Z →
  sample_loop rnd c terms fuel s = plain_loop rnd c terms fuel s.
Proof.
  intros Hz. revert s. induction fuel as [|fuel IH]; intros s Hp; [done|].
  cbn [sample_loop plain_loop]. destruct (Js.lt _ _); [|done].
  rewrite plain_pass_eq by done. apply IH.
  by rewrite plain_pass_zonesPlaced.
Qed.

Lemma plain_loop_zonesPlaced rnd c terms fuel s s' :
  plain_loop rnd c terms fuel s = Some s' →
  st_zonesPlaced s' = st_zonesPlaced s.
Proof.
  revert s. induction fuel as [|fuel IH]; intros s; [done|].
  cbn [plain_loop]. destruct (Js.lt _ _).
  - intros H. apply IH in H. by rewrite plain_pass_zonesPlaced in H.
  - by intros [= <-].
Qed.

(** C7.  With [numZones = 0] the zone branch never runs: whatever the fuel,
    a call does what the plain sampler does, so that the array returned is
    the plain sampled sequence, no zone is counted and the angle is never
    reset; the infinite spacing [maxPhase / 0] only makes the test fail. *)
Theorem generateTerrain_no_zones rnd o fuel :
  s_numZones (read_options o) = 0%Z →
  generateTerrain_run rnd fuel o = plain_run rnd fuel o ∧
  (∀ s, generateTerrain_run rnd fuel o = Some s → st_zonesPlaced s = 0%Z).
Proof.
  intros Hz.
  assert (generateTerrain_run rnd fuel o = plain_run rnd fuel o) as Heq.
  { unfold generateTerrain_run, plain_run.
    destruct (draw_terms rnd (read_options o)) as [terms cur].
    by apply plain_loop_eq. }
  split; [done|].
  intros s. rewrite Heq. unfold plain_run.
  destruct (draw_terms rnd (read_options o)) as [terms cur].
  intros H. by apply plain_loop_zonesPlaced in H.
Qed.

Lemma generateTerrain_no_zones_witness :
  generateTerrain_run half_draws 5 no_options = plain_run half_draws 5 no_options ∧
  (∀ s, generateTerrain_run half_draws 5 no_options = Some s →
        st_zonesPlaced s = 0%Z).
Proof. apply (generateTerrain_no_zones half_draws no_options 5). reflexivity. Defined.

(** ** The passes, one by one *)

Section Passes.

Variable rnd : nat → R.
Variable c : settings.
Variable terms : gmap string num.
Variables cs cc : Z → R.
Hypothesis terms_ok : holds_terms terms cs cc (s_numTerms c).

Local Abbreviation next := (λ s, loop_update rnd c (loop_body rnd c terms s)).

Lemma pass_plain s r :
  st_a s = Fin r → zone_ready c (Fin r) (st_zonesPlaced s) = false →
  next s = after_plain rnd c cs cc s r.
Proof.
  intros Ha Hz.
  pose proof (loop_iteration rnd c terms cs cc terms_ok s r Ha) as Hit.
  remember (loop_update rnd c (loop_body rnd c terms s)) as s' eqn:Hs'.
  clear Hs'.
  destruct Hit as [r0 Ha0 Hz0|r0 Ha0 Hz0 k Hd|r0 Ha0 Hz0 k Hd xz];
    rewrite Ha in Ha0; injection Ha0 as <-; [done|congruence..].
Qed.


(** Every pass pushes its sample first. *)
Lemma pass_pushes s r :
  st_a s = Fin r →
  ∃ rest, st_terrain (next s)
          = st_terrain s
            ++ sample c cs cc r (rnd (st_rng s)) (rnd (st_rng s + 1)) :: rest.
Proof.
  intros Ha.
  pose proof (loop_iteration rnd c terms cs cc terms_ok s r Ha) as Hit.
  remember (loop_update rnd c (loop_body rnd c terms s)) as s' eqn:Hs'.
  clear Hs'.
  destruct Hit as [r0 Ha0 Hz0|r0 Ha0 Hz0 k Hd|r0 Ha0 Hz0 k Hd xz];
    rewrite Ha in Ha0; injection Ha0 as <-; cbn [st_terrain]; eauto.
Qed.

Hypothesis samples_nz : s_numSamples c ≠ 0%Z.
Hypothesis scale_nz : s_scaleX c ≠ 0%R.

(** The array only grows at its end. *)
Lemma sample_loop_prefix fuel s s' :
  angle_ok (st_a s) →
  sample_loop rnd c terms fuel s = Some s' →
  st_terrain s `prefix_of` st_terrain s'.
Proof.
  intros Hok Hrun.
  eapply (sample_loop_invariant rnd c terms cs cc terms_ok samples_nz scale_nz
            (λ s1, st_terrain s `prefix_of` st_terrain s1)) in Hrun as [H _];
    try done.
  intros s1 s2 r Hpre Ha _ Hit.
  etrans; [exact Hpre|].
  destruct Hit; cbn [st_terrain]; by apply prefix_app_r.
Qed.



End Passes.

(** ** Following a call through its first passes *)

Lemma run_ends_loop rnd o s :
  let c := read_options o in
  run_ends rnd o s ↔
  loop_ends rnd c (draw_terms rnd c).1
    (initial_state (2 * Z.to_nat (s_numTerms c))) s.
Proof.
  cbv zeta. unfold run_ends, loop_ends.
  split; intros [fuel H]; exists fuel; intros fuel' Hle;
    specialize (H fuel' Hle); by rewrite generateTerrain_run_eq in *.
Qed.

Lemma loop_ends_step rnd c terms s s' :
  Js.lt (st_a s) (Fin (s_maxPhase c)) = true →
  loop_ends rnd c terms s s' →
  loop_ends rnd c terms (loop_update rnd c (loop_body rnd c terms s)) s'.
Proof.
  intros Hlt [fuel H]. exists fuel. intros fuel' Hle.
  specialize (H (S fuel') ltac:(lia)). cbn [sample_loop] in H.
  by rewrite Hlt in H.
Qed.

Lemma loop_ends_prefix rnd c terms cs cc s s' :
  holds_terms terms cs cc (s_numTerms c) →
  s_numSamples c ≠ 0%Z → s_scaleX c ≠ 0%R →
  angle_ok (st_a s) → loop_ends rnd c terms s s' →
  st_terrain s `prefix_of` st_terrain s'.
Proof.
  intros Ht Hns Hsx Hok [fuel H].
  eapply (sample_loop_prefix rnd c terms cs cc); eauto.
Qed.

(** ** A run that places a zone *)






(** ** Without deviation: samples on the curve, zones beside it *)






Lemma or_default_Some {A} `{EqDecision A} (zero v d : A) :
  v ≠ zero → or_default zero (Some v) d = v.
Proof. intros Hv. unfold or_default. by rewrite decide_False. Qed.





(** ** The step and the loop of a call *)

Lemma da_r_samples c :
  s_numSamples c ≠ 0%Z → (da_r c * IZR (s_numSamples c) = s_maxPhase c)%R.
Proof. intros Hns. unfold da_r. field. by apply not_0_IZR. Qed.

Lemma run_ends_sample_loop rnd o s :
  run_ends rnd o s →
  let c := read_options o in
  ∃ fuel,
    sample_loop rnd c (draw_terms rnd c).1 fuel
      (initial_state (2 * Z.to_nat (s_numTerms c))) = Some s.
Proof.
  intros [fuel H]. exists fuel. specialize (H fuel ltac:(lia)).
  by rewrite generateTerrain_run_eq in H.
Qed.

(** ** The comparison with [NaN], at work *)

Lemma mul_NaN_r a : (a * NaN)%js = NaN.
Proof. by destruct a. Qed.

Lemma add_NaN_r a : (a + NaN)%js = NaN.
Proof. by destruct a. Qed.

(** C5, at a failing input.  With the flags [s1 = 1] and [c1 = 0] and the
    angle [Infinity], the sine is [NaN] and so is the sum; the function
    returns [NaN] and writes nothing to the console.  The same happens at
    the angle 0 when the flags are missing from the term set. *)
Theorem makeWaveFunction_NaN_unreported :
  makeWaveFunction one_sine_term 1 PInf = (NaN, []) ∧
  makeWaveFunction ∅ 1 (Fin 0) = (NaN, []).
Proof.
  split.
  - unfold makeWaveFunction. change (Z.to_nat 1) with 1.
    cbn [wave_loop]. unfold wave_term, Js.of_Z.
    change (Z.of_nat 1) with 1%Z.
    assert ((Fin 1 * PInf)%js = PInf) as ->.
    { cbn. unfold Js.inf_signed. rewrite decide_True by lra. done. }
    cbn [Js.sin Js.cos]. by rewrite !mul_NaN_r, !add_NaN_r.
  - unfold makeWaveFunction. change (Z.to_nat 1) with 1.
    cbn [wave_loop]. unfold wave_term, term_flag.
    rewrite !lookup_empty. by rewrite !add_NaN_r.
Qed.

(** * Further properties of the code *)

(** ** The wave function: the origin, and flags that are missing *)





Lemma mul_NaN_l a : (NaN * a)%js = NaN.
Proof. by destruct a. Qed.

Lemma add_NaN_left a : (NaN + a)%js = NaN.
Proof. by destruct a. Qed.

Lemma wave_loop_NaN t a k : wave_loop t a k NaN = NaN.
Proof.
  induction k as [|k IH]; [done|].
  cbn [wave_loop]. by rewrite add_NaN_left.
Qed.

Lemma wave_term_missing t a i :
  t !! key "s" i = None ∨ t !! key "c" i = None → wave_term t a i = NaN.
Proof.
  unfold wave_term, term_flag. intros [-> | ->].
  - by rewrite mul_NaN_l, add_NaN_left.
  - by rewrite mul_NaN_l, add_NaN_r.
Qed.

Lemma wave_loop_missing t a i k y0 :
  (1 ≤ i ≤ Z.of_nat k)%Z →
  t !! key "s" i = None ∨ t !! key "c" i = None →
  wave_loop t a k y0 = NaN.
Proof.
  intros Hi Hmiss. revert y0. induction k as [|k IH]; intros y0; [lia|].
  cbn [wave_loop].
  destruct (decide (i = Z.of_nat (S k))) as [->|Hne].
  - by rewrite wave_term_missing, add_NaN_r, wave_loop_NaN.
  - apply IH. lia.
Qed.

(** X5.  When a flag of an index of [1..n] is missing from the term set,
    the function returned by [makeWaveFunction] returns [NaN] at every
    angle, and writes nothing. *)
Theorem makeWaveFunction_missing_flag t n a i :
  (1 ≤ i ≤ n)%Z →
  t !! key "s" i = None ∨ t !! key "c" i = None →
  makeWaveFunction t n a = (NaN, []).
Proof.
  intros Hi Hmiss. unfold makeWaveFunction.
  by rewrite (wave_loop_missing t a i) by (done || lia).
Qed.

Lemma makeWaveFunction_missing_flag_witness :
  makeWaveFunction one_sine_term 2 (Fin 0) = (NaN, []).
Proof.
  apply (makeWaveFunction_missing_flag one_sine_term 2 (Fin 0) 2).
  - lia.
  - left. unfold one_sine_term.
    rewrite !lookup_insert_ne; [done|..].
    + intros H. apply key_inj in H. lia.
    + intros H. symmetry in H. by apply key_s_c in H.
Defined.

(** ** The sampler at the edges of its settings *)

(** X6.  With a negative [maxPhase] the condition of the loop fails at
    [a = 0]: whatever the draws, [generateTerrain] returns the empty array,
    and [drawTerrain] throws on it, after it has cleared the canvas and
    before it draws or strokes anything. *)
Theorem generateTerrain_negative_phase rnd fuel o :
  (s_maxPhase (read_options o) < 0)%R →
  generateTerrain rnd (S fuel) o = Some [] ∧
  drawTerrain <$> generateTerrain rnd (S fuel) o
  = Some ([ClearRect (Fin 0) (Fin 0) (Fin CANVAS_WIDTH_PX)
             (Fin CANVAS_HEIGHT_PX);
           SetStrokeStyle "#000000"; BeginPath], TypeError).
Proof.
  intros Hmp.
  assert (generateTerrain rnd (S fuel) o = Some []) as Hgen.
  { unfold generateTerrain. rewrite generateTerrain_run_eq. cbv zeta.
    cbn [sample_loop initial_state st_a].
    by rewrite lt_fin, bool_decide_false by lra. }
  split; [done|]. by rewrite Hgen.
Qed.

Lemma generateTerrain_negative_phase_witness :
  generateTerrain half_draws 1 negative_phase_options = Some [] ∧
  drawTerrain <$> generateTerrain half_draws 1 negative_phase_options
  = Some ([ClearRect (Fin 0) (Fin 0) (Fin CANVAS_WIDTH_PX)
             (Fin CANVAS_HEIGHT_PX);
           SetStrokeStyle "#000000"; BeginPath], TypeError).
Proof.
  apply (generateTerrain_negative_phase half_draws 0 negative_phase_options).
  unfold read_options, negative_phase_options. cbn [s_maxPhase maxPhase].
  rewrite or_default_Some by lra. lra.
Defined.

(** At an angle that is not positive no zone is placed. *)
Lemma zone_ready_nonpositive c r zp :
  (0 < s_maxPhase c)%R → (r <= 0)%R → (0 ≤ zp)%Z →
  zone_ready c (Fin r) zp = false.
Proof.
  intros Hmp Hr Hzp. unfold zone_ready.
  destruct (s_numZones c <? zp)%Z eqn:Hguard; [done|].
  apply Z.ltb_ge in Hguard. cbn [negb andb].
  unfold zoneSpacing, Js.of_Z, Js.gt.
  destruct (decide (s_numZones c = 0%Z)) as [Hz|Hz].
  - rewrite Hz. unfold Js.div at 2. rewrite decide_True by done.
    unfold Js.inf_signed. rewrite decide_True by done.
    cbn. apply bool_decide_eq_false.
    assert (0 <= IZR zp)%R by (by apply IZR_le). lra.
  - assert (0 < IZR (s_numZones c))%R as Hn by (apply IZR_lt; lia).
    assert (0 <= IZR zp)%R by (by apply IZR_le).
    assert (0 < s_maxPhase c / IZR (s_numZones c))%R as Hq
      by (by apply Rdiv_lt_0_compat).
    rewrite !div_fin by lra. cbn. apply bool_decide_eq_false.
    assert (0 < / (s_maxPhase c / IZR (s_numZones c)))%R
      by (by apply Rinv_0_lt_compat).
    unfold Rdiv at 1. nra.
Qed.

Lemma sample_loop_backwards rnd c terms cs cc :
  holds_terms terms cs cc (s_numTerms c) →
  unit_draws rnd → (0 < s_maxPhase c)%R → (s_numSamples c < 0)%Z →
  ∀ fuel s r,
    st_a s = Fin r → (r <= 0)%R → (0 ≤ st_zonesPlaced s)%Z →
    sample_loop rnd c terms fuel s = None.
Proof.
  intros Hterms Hrnd Hmp Hns.
  assert (s_numSamples c ≠ 0%Z) as Hsnz by lia.
  assert (da_r c < 0)%R as Hda.
  { pose proof (da_r_samples c Hsnz) as Hprod.
    assert (IZR (s_numSamples c) < 0)%R by (by apply IZR_lt). nra. }
  induction fuel as [|fuel IH]; intros s r Ha Hr Hzp; [done|].
  cbn [sample_loop]. rewrite Ha, lt_fin, bool_decide_true by lra.
  rewrite (pass_plain rnd c terms cs cc Hterms s r Ha)
    by (by apply zone_ready_nonpositive).
  eapply IH.
  - unfold after_plain. cbn [st_a]. by apply advance_fin.
  - pose proof (Hrnd (st_rng s + 2)) as Hu. unfold step_of. nra.
  - done.
Qed.

(** X7.  With [maxPhase > 0] and a negative [numSamples] every step is
    negative: the angle never reaches [maxPhase] and the call never
    returns, whatever the fuel. *)
Theorem generateTerrain_negative_samples rnd o fuel :
  unit_draws rnd →
  (0 < s_maxPhase (read_options o))%R →
  (s_numSamples (read_options o) < 0)%Z →
  generateTerrain rnd fuel o = None.
Proof.
  intros Hrnd Hmp Hns. unfold generateTerrain.
  rewrite generateTerrain_run_eq. cbv zeta.
  erewrite (sample_loop_backwards rnd (read_options o));
    eauto using draw_terms_holds.
  - cbn. lra.
  - done.
Qed.

Lemma generateTerrain_negative_samples_witness :
  generateTerrain half_draws 1000 negative_samples_options = None.
Proof.
  apply (generateTerrain_negative_samples half_draws negative_samples_options
           1000).
  - intros k. unfold half_draws. lra.
  - cbn. pose proof PI_RGT_0. lra.
  - reflexivity.
Defined.

(** ** Invariants of a whole call *)

(** Invariant rule for a call: a property of the variables that holds on
    entry of the sampling loop and that every pass from a finite angle
    below [maxPhase] preserves holds when the call returns. *)
Lemma run_invariant rnd o (P : loopState → Prop) :
  let c := read_options o in
  P (initial_state (2 * Z.to_nat (s_numTerms c))) →
  (∀ s s' r, P s → st_a s = Fin r → (r < s_maxPhase c)%R →
             iteration rnd c (drawn_s rnd) (drawn_c rnd) s s' → P s') →
  ∀ s, run_ends rnd o s → P s ∧ angle_ok (st_a s) ∧ loop_exit c s.
Proof.
  intros c Hinit Hstep s Hs.
  apply run_ends_sample_loop in Hs as [fuel Hs]. fold c in Hs.
  eapply (sample_loop_invariant rnd c _ _ _ (draw_terms_holds rnd c)
            (read_options_samples_nz o) (read_options_scale_nz o) P);
    eauto.
  right. by eexists.
Qed.





Lemma iteration_range_invariant rnd c cs cc s s' r :
  unit_draws rnd → (0 < s_maxPhase c)%R → (1 ≤ s_numSamples c)%Z →
  s_numZones c = 0%Z → (0 < s_scaleX c)%R → (0 <= s_maxDevX c)%R →
  range_invariant c s → st_a s = Fin r → (r < s_maxPhase c)%R →
  iteration rnd c cs cc s s' → range_invariant c s'.
Proof.
  intros Hrnd Hmp Hns Hnz Hsx Hdev (r0 & Ha0 & Hr0 & Hzp & Hall) Ha Hr Hit.
  rewrite Ha in Ha0. injection Ha0 as <-.
  assert (s_numSamples c ≠ 0%Z) as Hsnz by lia.
  pose proof (da_r_pos c Hmp Hns) as Hda.
  pose proof (zone_ready_no_zones c (Fin r) Hnz) as Hready.
  destruct Hit as [r0 Ha0 Hz|r0 Ha0 Hz k Hd|r0 Ha0 Hz k Hd xz];
    rewrite Ha in Ha0; injection Ha0 as <-; rewrite Hzp in Hz;
    [|congruence..].
  unfold range_invariant. cbn [st_a st_zonesPlaced st_terrain].
  rewrite advance_fin by done. eexists. split; [done|].
  pose proof (step_of_range c (rnd (k + 2)) Hda (Hrnd _)).
  split; [lra|]. split; [done|].
  apply Forall_app. split; [done|]. repeat constructor.
  eexists. split; [done|]. unfold sample_x.
  pose proof (Hrnd (k + 1)) as Hu. nra.
Qed.

(** ** The renderer *)

(** The loop of [drawTerrain] draws a line to every coordinate from the
    index [i] on, in order, and never reads past the end of the array. *)
Lemma lineTo_loop_drop t fuel i :
  length t ≤ i + fuel →
  lineTo_loop t fuel i
  = (map (λ p, LineTo (x p) (y p)) (drop i t), Returned).
Proof.
  revert i. induction fuel as [|fuel IH]; intros i Hlen.
  - cbn. by rewrite drop_ge by lia.
  - cbn [lineTo_loop]. destruct (i <? length t)%nat eqn:Hi.
    + apply Nat.ltb_lt in Hi.
      destruct (lookup_lt_is_Some_2 t i Hi) as [p Hp]. rewrite Hp.
      rewrite IH by lia. by rewrite (drop_S t p i Hp).
    + apply Nat.ltb_ge in Hi. by rewrite drop_ge by lia.
Qed.

Lemma drawTerrain_calls p0 rest :
  drawTerrain (p0 :: rest)
  = (draw_prologue ++ MoveTo (x p0) (y p0)
       :: map (λ p, LineTo (x p) (y p)) rest ++ [Stroke], Returned).
Proof.
  unfold drawTerrain. cbn [lookup list_lookup].
  rewrite lineTo_loop_drop by (cbn; lia). reflexivity.
Qed.

Lemma path_points_lines rest :
  path_points (map (λ p, LineTo (x p) (y p)) rest) = rest.
Proof.
  induction rest as [|[px py] rest IH]; [done|].
  cbn [map path_points x y]. by rewrite IH.
Qed.

(** X13.  On an array that is not empty [drawTerrain] returns, after these
    calls and no other: it clears the canvas, sets the stroke style, begins
    a path, moves to the first coordinate, draws a line to each of the
    others in the order of the array, and strokes. *)
Theorem drawTerrain_path t :
  t ≠ [] →
  ∃ p0 rest,
    t = p0 :: rest ∧
    drawTerrain t
    = (draw_prologue ++ MoveTo (x p0) (y p0)
         :: map (λ p, LineTo (x p) (y p)) rest ++ [Stroke], Returned).
Proof.
  intros Ht. destruct t as [|p0 rest]; [done|].
  exists p0, rest. split; [done|]. apply drawTerrain_calls.
Qed.

Lemma drawTerrain_path_witness :
  ∃ p0 rest,
    [Coord (Fin 0) (Fin 1); Coord (Fin 2) (Fin 3)] = p0 :: rest ∧
    drawTerrain [Coord (Fin 0) (Fin 1); Coord (Fin 2) (Fin 3)]
    = (draw_prologue ++ MoveTo (x p0) (y p0)
         :: map (λ p, LineTo (x p) (y p)) rest ++ [Stroke], Returned).
Proof.
  apply (drawTerrain_path [Coord (Fin 0) (Fin 1); Coord (Fin 2) (Fin 3)]).
  discriminate.
Defined.

(** X14.  [drawTerrain] throws on the empty array and on no other: the
    read of [t[0].x] is its only failure, and when it throws the canvas is
    cleared and nothing is stroked. *)
Theorem drawTerrain_throws t :
  ((drawTerrain t).2 = TypeError ↔ t = []) ∧
  ((drawTerrain t).2 = TypeError → (drawTerrain t).1 = draw_prologue).
Proof.
  destruct t as [|p0 rest].
  - split; [by split|done].
  - rewrite drawTerrain_calls. cbn [snd]. split; [by split|done].
Qed.

(** ** The form and the page *)

(** The settings that [regen] fixes, whatever the form: the domain [3π] is
    mapped onto the width of the canvas. *)
Lemma regen_settings f :
  let c := read_options (regen_options f) in
  s_maxPhase c = (3 * PI)%R ∧
  s_scaleX c = (CANVAS_WIDTH_PX / (3 * PI))%R ∧
  s_offsetY c = 400%R ∧
  (s_maxPhase c * s_scaleX c)%R = CANVAS_WIDTH_PX.
Proof.
  pose proof PI_RGT_0 as Hpi. cbv zeta.
  unfold read_options, regen_options, CANVAS_WIDTH_PX.
  cbn [s_maxPhase s_scaleX s_offsetY maxPhase scaleX offsetY].
  assert (800 / (3 * PI) ≠ 0)%R as Hsx.
  { intros H. assert (800 / (3 * PI) * (3 * PI) = 800)%R by (field; lra).
    rewrite H in *. lra. }
  rewrite !or_default_Some by lra.
  repeat split. field. lra.
Qed.

Lemma regen_samples f :
  (∀ n, f_samples f = Some n → (0 ≤ n)%Z) →
  (1 ≤ s_numSamples (read_options (regen_options f)))%Z.
Proof.
  intros Hf. unfold read_options, regen_options.
  cbn [s_numSamples numSamples]. unfold or_default.
  destruct (f_samples f) as [n|]; [|lia].
  specialize (Hf n eq_refl). case_decide; lia.
Qed.

Lemma regen_deviation f :
  (∀ d, f_maxDevX f = Some d → (0 ≤ d)%Z) →
  (0 <= s_maxDevX (read_options (regen_options f)))%R.
Proof.
  intros Hf. unfold read_options, regen_options.
  cbn [s_maxDevX maxDeviationX]. unfold or_default.
  destruct (f_maxDevX f) as [d|]; cbn [fmap option_fmap option_map]; [|lra].
  case_decide; [lra|]. apply (IZR_le 0). by apply Hf.
Qed.

(** A call that returns with [maxPhase > 0] has pushed the sample of its
    first pass. *)
Lemma run_ends_nonempty rnd o s :
  (0 < s_maxPhase (read_options o))%R →
  run_ends rnd o s → st_terrain s ≠ [].
Proof.
  intros Hmp Hs.
  set (c := read_options o) in *.
  pose proof (draw_terms_holds rnd c) as Hterms.
  set (terms := (draw_terms rnd c).1) in *.
  set (k := 2 * Z.to_nat (s_numTerms c)).
  apply (proj1 (run_ends_loop rnd o s)) in Hs. fold c terms k in Hs.
  apply loop_ends_step in Hs.
  2: { cbn. apply bool_decide_eq_true. exact Hmp. }
  destruct (pass_pushes rnd c terms _ _ Hterms (initial_state k) 0%R eq_refl)
    as [rest0 Hpush].
  eapply (loop_ends_prefix rnd c terms) in Hs as [rest1 Hpre];
    eauto using read_options_samples_nz, read_options_scale_nz.
  2: { eapply iteration_angle_ok;
       eauto using read_options_samples_nz, read_options_scale_nz.
       by eapply loop_iteration. }
  rewrite Hpush in Hpre. cbn [initial_state st_terrain app] in Hpre.
  by rewrite Hpre.
Qed.

(** Drawing the array of a call that has returned: the path goes through
    the array. *)
Lemma drawTerrain_run rnd o s :
  run_ends rnd o s → st_terrain s ≠ [] →
  ∃ fuel calls,
    (∀ fuel', fuel ≤ fuel' →
       drawTerrain <$> generateTerrain rnd fuel' o
       = Some (draw_prologue ++ calls ++ [Stroke], Returned)) ∧
    path_points calls = st_terrain s.
Proof.
  intros [fuel Hs] Hne.
  destruct (st_terrain s) as [|p0 rest] eqn:Ht; [done|].
  exists fuel, (MoveTo (x p0) (y p0) :: map (λ p, LineTo (x p) (y p)) rest).
  split.
  - intros fuel' Hle. unfold generateTerrain.
    rewrite (Hs fuel' Hle). cbn [fmap option_fmap option_map].
    by rewrite Ht, drawTerrain_calls.
  - destruct p0 as [px py]. cbn [path_points x y].
    by rewrite path_points_lines.
Qed.

Lemma regen_run rnd f :
  unit_draws rnd →
  (∀ n, f_samples f = Some n → (0 ≤ n)%Z) →
  ∃ s, run_ends rnd (regen_options f) s ∧ st_terrain s ≠ [].
Proof.
  intros Hrnd Hf.
  destruct (regen_settings f) as (Hmp & _).
  pose proof PI_RGT_0 as Hpi.
  assert (0 < s_maxPhase (read_options (regen_options f)))%R as Hpos
    by (rewrite Hmp; lra).
  destruct (generateTerrain_run_terminates rnd (regen_options f) Hrnd Hpos)
    as [s Hs]; [by apply regen_samples|].
  exists s. split; [done|]. by eapply run_ends_nonempty.
Qed.

(** X15.  [regen] never throws: whenever its call of [generateTerrain]
    returns, the array is not empty (the domain [3π] is positive), and
    [drawTerrain] clears the canvas, moves to the first coordinate, draws a
    line to each of the others in order, and strokes. *)
Theorem regen_draws rnd f fuel r :
  regen rnd fuel f = Some r →
  ∃ p0 rest,
    generateTerrain rnd fuel (regen_options f) = Some (p0 :: rest) ∧
    r = (draw_prologue ++ MoveTo (x p0) (y p0)
           :: map (λ p, LineTo (x p) (y p)) rest ++ [Stroke], Returned).
Proof.
  unfold regen, generateTerrain. intros Hr.
  destruct (generateTerrain_run rnd fuel (regen_options f)) as [s|] eqn:Hrun;
    [|done].
  cbn [fmap option_fmap option_map] in *. injection Hr as <-.
  assert (st_terrain s ≠ []) as Hne.
  { apply (run_ends_nonempty rnd (regen_options f)).
    - destruct (regen_settings f) as (-> & _). pose proof PI_RGT_0. lra.
    - by eapply run_ends_intro. }
  destruct (st_terrain s) as [|p0 rest]; [done|].
  exists p0, rest. split; [done|]. apply drawTerrain_calls.
Qed.

Lemma regen_draws_witness :
  ∃ fuel r p0 rest,
    regen half_draws fuel page_form = Some r ∧
    generateTerrain half_draws fuel (regen_options page_form)
    = Some (p0 :: rest) ∧
    r = (draw_prologue ++ MoveTo (x p0) (y p0)
           :: map (λ p, LineTo (x p) (y p)) rest ++ [Stroke], Returned).
Proof.
  destruct (regen_run half_draws page_form) as (s & [fuel Hs] & _).
  { intros k. unfold half_draws. lra. }
  { intros n [= <-]. lia. }
  assert (regen half_draws fuel page_form = Some (drawTerrain (st_terrain s)))
    as Hr.
  { unfold regen, generateTerrain. by rewrite (Hs fuel (Nat.le_refl _)). }
  destruct (regen_draws half_draws page_form fuel _ Hr)
    as (p0 & rest & Ht & He).
  by exists fuel, (drawTerrain (st_terrain s)), p0, rest.
Defined.

(** X16.  When the number of samples of the form is negative, [regen]
    never returns: the terrain is never finished and nothing is drawn. *)
Theorem regen_negative_samples rnd f n fuel :
  unit_draws rnd →
  f_samples f = Some n → (n < 0)%Z →
  regen rnd fuel f = None.
Proof.
  intros Hrnd Hf Hn. unfold regen, generateTerrain.
  rewrite generateTerrain_run_eq. cbv zeta.
  erewrite (sample_loop_backwards rnd (read_options (regen_options f)));
    eauto using draw_terms_holds.
  - destruct (regen_settings f) as (-> & _). pose proof PI_RGT_0. lra.
  - unfold read_options, regen_options. cbn [s_numSamples numSamples].
    rewrite Hf, or_default_Some by lia. done.
  - cbn. lra.
  - done.
Qed.

Lemma regen_negative_samples_witness :
  regen half_draws 1000 negative_samples_form = None.
Proof.
  apply (regen_negative_samples half_draws negative_samples_form (-5) 1000).
  - intros k. unfold half_draws. lra.
  - reflexivity.
  - lia.
Defined.

(** X17.  Without zones, with a number of samples and a deviation of [x]
    that are not negative, every point of the path that [regen] draws is
    within the deviation of the width of the canvas:
    [-maxDevX <= x < CANVAS_WIDTH_PX + maxDevX]. *)
Theorem regen_fits_width rnd f :
  unit_draws rnd →
  (∀ n, f_samples f = Some n → (0 ≤ n)%Z) →
  (∀ d, f_maxDevX f = Some d → (0 ≤ d)%Z) →
  s_numZones (read_options (regen_options f)) = 0%Z →
  let dev := s_maxDevX (read_options (regen_options f)) in
  ∃ fuel calls,
    (∀ fuel', fuel ≤ fuel' →
       regen rnd fuel' f = Some (draw_prologue ++ calls ++ [Stroke], Returned)) ∧
    ∀ p, p ∈ path_points calls →
         ∃ a, x p = Fin a ∧ (- dev <= a < CANVAS_WIDTH_PX + dev)%R.
Proof.
  intros Hrnd Hsamples Hdev Hnz dev.
  destruct (regen_settings f) as (Hmp & Hsx & _ & Hwidth).
  pose proof PI_RGT_0 as Hpi.
  destruct (regen_run rnd f Hrnd Hsamples) as (s & Hs & Hne).
  destruct (drawTerrain_run rnd _ s Hs Hne) as (fuel & calls & Hdraw & Hpath).
  exists fuel, calls. split; [done|]. rewrite Hpath.
  apply (run_invariant rnd _ (range_invariant (read_options (regen_options f))))
    in Hs as [(r & _ & _ & _ & Hrange) _].
  - intros p Hp. rewrite Forall_forall in Hrange.
    destruct (Hrange p Hp) as (a & Ha & Hlo & Hhi).
    exists a. split; [done|]. rewrite Hwidth in Hhi. by split.
  - exists 0%R. cbn. repeat split; try done; lra.
  - intros s1 s2 r Hinv Ha Hr Hit.
    eapply iteration_range_invariant; eauto.
    + rewrite Hmp. lra.
    + by apply regen_samples.
    + rewrite Hsx. unfold CANVAS_WIDTH_PX. apply Rdiv_lt_0_compat; lra.
    + by apply regen_deviation.
Qed.

Lemma regen_fits_width_witness :
  let dev := s_maxDevX (read_options (regen_options plain_form)) in
  ∃ fuel calls,
    (∀ fuel', fuel ≤ fuel' →
       regen half_draws fuel' plain_form
       = Some (draw_prologue ++ calls ++ [Stroke], Returned)) ∧
    ∀ p, p ∈ path_points calls →
         ∃ a, x p = Fin a ∧ (- dev <= a < CANVAS_WIDTH_PX + dev)%R.
Proof.
  apply (regen_fits_width half_draws plain_form).
  - intros k. unfold half_draws. lra.
  - intros n [= <-]. lia.
  - intros d [= <-]. lia.
  - reflexivity.
Defined.

(** ** Options given as zero *)

Lemma or_default_nonzero {A : Type} `{EqDecision A} (zero : A) v d :
  or_default zero (nonzero zero v) d = or_default zero v d.
Proof.
  unfold or_default, nonzero. destruct v as [a|]; [|done].
  destruct (decide (a = zero)) as [Ha|Ha]; [done|].
  by rewrite decide_False.
Qed.

(** X18.  The options are tested for truth, not for presence: a number
    given as 0 acts as if it were left out, whatever the draws.  So the
    number of terms, the domain, the number of samples and the two scales
    in effect are never 0: [numTerms: 0] gives three terms and
    [scaleY: 0] gives the scale 100. *)
Theorem generateTerrain_zero_options rnd fuel o :
  generateTerrain rnd fuel (without_zeros o) = generateTerrain rnd fuel o ∧
  s_numTerms (read_options o) ≠ 0%Z ∧
  s_maxPhase (read_options o) ≠ 0%R ∧
  s_numSamples (read_options o) ≠ 0%Z ∧
  s_scaleX (read_options o) ≠ 0%R ∧
  s_scaleY (read_options o) ≠ 0%R.
Proof.
  pose proof PI_RGT_0 as Hpi.
  split.
  - assert (read_options (without_zeros o) = read_options o) as Hread.
    { unfold read_options, without_zeros.
      cbn [numTerms maxPhase numSamples scaleX scaleY offsetY maxDeviationX
           maxDeviationY numZones zoneWidths].
      by rewrite !or_default_nonzero. }
    unfold generateTerrain. by rewrite !generateTerrain_run_eq, Hread.
  - unfold read_options.
    cbn [s_numTerms s_maxPhase s_numSamples s_scaleX s_scaleY].
    repeat split; apply or_default_nz; (lia || lra).
Qed.

(** * Properties in double precision *)

Section DoublePrecision.

Import Double DoubleFacts DoubleExamples.

(** ** Multiplication by one *)

Lemma digits2_pos_shift m (k : nat) :
  Z.pos (digits2_pos (Nat.iter k xO m))
  = (Z.pos (digits2_pos m) + Z.of_nat k)%Z.
Proof.
  induction k as [|k IH]; [cbn; lia|].
  rewrite Nat.iter_succ. cbn [digits2_pos]. rewrite Pos2Z.inj_succ, IH. lia.
Qed.

Lemma iter_shr_1_shift m (k : nat) :
  Nat.iter k shr_1
    {| shr_m := Z.pos (Nat.iter k xO m); shr_r := false; shr_s := false |}
  = {| shr_m := Z.pos m; shr_r := false; shr_s := false |}.
Proof.
  induction k as [|k IH]; [done|].
  rewrite Nat.iter_succ_r, Nat.iter_succ. cbn [shr_1 orb]. apply IH.
Qed.

Lemma iter_pos_nat {A} (f : A → A) p a :
  SpecFloat.iter_pos f p a = Nat.iter (Pos.to_nat p) f a.
Proof.
  revert a. induction p as [p IH|p IH|]; intros a; cbn [SpecFloat.iter_pos].
  - rewrite !IH, Pos2Nat.inj_xI. cbn [Nat.mul].
    rewrite Nat.add_0_r, Nat.iter_succ_r, Nat.iter_add. done.
  - rewrite !IH, Pos2Nat.inj_xO. cbn [Nat.mul].
    rewrite Nat.add_0_r, Nat.iter_add. done.
  - done.
Qed.

(** The product of 1 and a double is that double: the mantissa is
    shifted by the 52 zeros of the mantissa of 1 and back, and nothing is
    rounded away. *)
Lemma mul_one_l v : valid_binary prec emax v = true → (one * v)%dbl = v.
Proof.
  destruct v as [s|s| |s m e]; try done.
  intros Hv. unfold mul, SFmul, one. cbn [of_Z binary_normalize].
  change (binary_round prec emax false 1 0)
    with (S754_finite false 4503599627370496 (-52)).
  cbn [xorb].
  change (4503599627370496 * m)%positive with (Nat.iter 52 xO m).
  cbn [valid_binary] in Hv. unfold bounded, canonical_mantissa in Hv.
  apply andb_prop in Hv as [Hc Hb].
  apply Z.eqb_eq in Hc. apply Z.leb_le in Hb.
  unfold binary_round_aux, shr_fexp. unfold Zdigits2.
  rewrite digits2_pos_shift.
  replace (Z.pos (digits2_pos m) + Z.of_nat 52 + (-52 + e))%Z
    with (Z.pos (digits2_pos m) + e)%Z by lia.
  rewrite Hc. replace (e - (-52 + e))%Z with 52%Z by lia.
  cbn [shr shr_record_of_loc]. rewrite iter_pos_nat.
  change (Pos.to_nat 52) with 52%nat. rewrite iter_shr_1_shift.
  cbn [shr_m loc_of_shr_record round_nearest_even Zdigits2].
  replace (-52 + e + 52)%Z with e by lia.
  rewrite Hc, Z.sub_diag. cbn [shr shr_record_of_loc shr_m].
  by rewrite (proj2 (Z.leb_le _ _) Hb).
Qed.

(** ** Zeros and [NaN] *)

Lemma same_number_trans a b c :
  same_number a b → same_number b c → same_number a c.
Proof.
  intros [->|[Ha Hb]] [->|[Hb' Hc]]; [by left|by right|by right|by right].
Qed.

Lemma add_same_number a a' b b' :
  same_number a a' → same_number b b' →
  same_number (a + b)%dbl (a' + b')%dbl.
Proof.
  intros [->|[Ha Ha']] [->|[Hb Hb']]; [by left|..].
  - destruct b as [sb| | |]; try done. destruct b' as [sb'| | |]; try done.
    destruct a' as [sa|sa| |sa ma ea]; [|by left..].
    right. by destruct sa, sb, sb'.
  - destruct a as [sa| | |]; try done. destruct a' as [sa'| | |]; try done.
    destruct b' as [sb|sb| |sb mb eb]; [|by left..].
    right. by destruct sa, sa', sb.
  - destruct a as [sa| | |]; try done. destruct a' as [sa'| | |]; try done.
    destruct b as [sb| | |]; try done. destruct b' as [sb'| | |]; try done.
    right. by destruct sa, sa', sb, sb'.
Qed.

Lemma add_zero_same_number a z :
  is_zero z = true → same_number (a + z)%dbl a.
Proof.
  destruct z as [sz| | |]; try done. intros _.
  destruct a as [sa|sa| |sa ma ea]; [|by left..].
  right. by destruct sa, sz.
Qed.

Lemma add_zero_l_same_number z a :
  is_zero z = true → same_number (z + a)%dbl a.
Proof.
  destruct z as [sz| | |]; try done. intros _.
  destruct a as [sa|sa| |sa ma ea]; [|by left..].
  right. by destruct sa, sz.
Qed.

Lemma add_zeros z1 z2 :
  is_zero z1 = true → is_zero z2 = true → is_zero (z1 + z2)%dbl = true.
Proof.
  destruct z1 as [s1| | |]; try done. destruct z2 as [s2| | |]; try done.
  by destruct s1, s2.
Qed.

Lemma mul_zero_l v : is_finite v = true → is_zero (zero * v)%dbl = true.
Proof. by destruct v. Qed.

Lemma mul_finite_zero v z :
  is_finite v = true → is_zero z = true → is_zero (v * z)%dbl = true.
Proof. destruct z; try done. by destruct v. Qed.

Lemma mul_nan_r v : (v * nan)%dbl = nan.
Proof. by destruct v. Qed.

Lemma add_nan_l v : (nan + v)%dbl = nan.
Proof. by destruct v. Qed.

Lemma add_nan_r v : (v + nan)%dbl = nan.
Proof. by destruct v. Qed.

Lemma strict_eq_nan v : strict_eq v nan = false.
Proof. by destruct v. Qed.

(** ** The wave function *)

(** The warning of [makeWaveFunction] is never written: [y === NaN] is
    false for every double. *)
Lemma wave_console sin_impl cos_impl t n a :
  (makeWaveFunction sin_impl cos_impl t n a).2 = [].
Proof. unfold makeWaveFunction. cbn [snd]. by rewrite strict_eq_nan. Qed.

Lemma sin_ok sin_impl v :
  engine_ok sin_impl → is_finite v = true →
  is_finite (sin sin_impl v) = true ∧
  valid_binary prec emax (sin sin_impl v) = true.
Proof. intros Hen Hv. destruct v; try done. apply Hen. Qed.

Lemma cos_ok cos_impl v :
  engine_ok cos_impl → is_finite v = true →
  is_finite (cos cos_impl v) = true ∧
  valid_binary prec emax (cos cos_impl v) = true.
Proof. intros Hen Hv. destruct v; try done. apply Hen. Qed.

(** One pass of the loop of the wave function: a flag 1 passes the value
    of its harmonic on unchanged, a flag 0 turns it into a zero, which
    adds nothing. *)
Lemma wave_term_enabled sin_impl cos_impl t (s c : bool) a i v v' :
  engine_ok sin_impl → engine_ok cos_impl →
  t !! key "s" i = Some (flag s) → t !! key "c" i = Some (flag c) →
  is_finite (of_Z i * a)%dbl = true →
  same_number v v' →
  same_number (v + wave_term sin_impl cos_impl t a i)%dbl
    (add_enabled s c (sin sin_impl (of_Z i * a)%dbl)
       (cos cos_impl (of_Z i * a)%dbl) v').
Proof.
  intros Hsin Hcos Hs Hc Hfin Hv.
  unfold wave_term, term_flag. rewrite Hs, Hc.
  destruct (sin_ok sin_impl _ Hsin Hfin) as [Hsf Hsv].
  destruct (cos_ok cos_impl _ Hcos Hfin) as [Hcf Hcv].
  set (sv := sin sin_impl _) in *. set (cv := cos cos_impl _) in *.
  destruct s, c; cbn [flag add_enabled].
  - rewrite !mul_one_l by done. by apply add_same_number; [|left].
  - rewrite mul_one_l by done. apply add_same_number; [done|].
    apply add_zero_same_number. by apply mul_zero_l.
  - rewrite mul_one_l by done. apply add_same_number; [done|].
    apply add_zero_l_same_number. by apply mul_zero_l.
  - eapply same_number_trans; [|exact Hv].
    apply add_zero_same_number. apply add_zeros; by apply mul_zero_l.
Qed.

Lemma wave_loop_enabled sin_impl cos_impl t (s c : Z → bool) a n :
  engine_ok sin_impl → engine_ok cos_impl →
  holds_flags t s c n →
  (∀ i, (1 ≤ i ≤ n)%Z → is_finite (of_Z i * a)%dbl = true) →
  ∀ k v v', (Z.of_nat k ≤ n)%Z → same_number v v' →
    same_number (wave_loop sin_impl cos_impl t a k v)
      (enabled_sum sin_impl cos_impl s c a k v').
Proof.
  intros Hsin Hcos Ht Hfin. induction k as [|k IH]; intros v v' Hk Hv; [done|].
  cbn [wave_loop enabled_sum]. apply IH; [lia|].
  destruct (Ht (Z.of_nat (S k))) as [Hs Hc]; [lia|].
  apply wave_term_enabled; auto. apply Hfin. lia.
Qed.

Lemma wave_enabled sin_impl cos_impl t (s c : Z → bool) a n :
  engine_ok sin_impl → engine_ok cos_impl →
  holds_flags t s c n →
  (∀ i, (1 ≤ i ≤ n)%Z → is_finite (of_Z i * a)%dbl = true) →
  same_number (makeWaveFunction sin_impl cos_impl t n a).1
    (enabled_sum sin_impl cos_impl s c a (Z.to_nat n) zero).
Proof.
  intros Hsin Hcos Ht Hfin. cbn [fst makeWaveFunction].
  destruct (Z.le_gt_cases 0 n) as [Hn|Hn].
  - apply (wave_loop_enabled sin_impl cos_impl t s c a n); auto;
      [lia|by left].
  - rewrite Z2Nat.nonpos by lia. by left.
Qed.

Lemma enabled_sum_none sin_impl cos_impl a k v :
  enabled_sum sin_impl cos_impl (λ _, false) (λ _, false) a k v = v.
Proof.
  revert v. induction k as [|k IH]; intros v; [done|].
  cbn [enabled_sum add_enabled]. apply IH.
Qed.

Lemma wave_loop_nan sin_impl cos_impl t a k :
  wave_loop sin_impl cos_impl t a k nan = nan.
Proof.
  induction k as [|k IH]; [done|]. cbn [wave_loop]. by rewrite add_nan_l.
Qed.

Lemma wave_term_overflow sin_impl cos_impl t a i :
  is_finite (of_Z i * a)%dbl = false →
  wave_term sin_impl cos_impl t a i = nan.
Proof.
  intros Hinf. unfold wave_term.
  destruct (of_Z i * a)%dbl; try done; cbn [sin cos];
    by rewrite !mul_nan_r.
Qed.

Lemma wave_loop_overflow sin_impl cos_impl t a i :
  is_finite (of_Z i * a)%dbl = false →
  ∀ k v, (1 ≤ i ≤ Z.of_nat k)%Z →
    wave_loop sin_impl cos_impl t a k v = nan.
Proof.
  intros Hinf. induction k as [|k IH]; intros v Hi; [lia|].
  cbn [wave_loop]. destruct (decide (i = Z.of_nat (S k))) as [->|Hne].
  - by rewrite wave_term_overflow, add_nan_r, wave_loop_nan.
  - apply IH. lia.
Qed.

Lemma table_sin_ok : engine_ok table_sin.
Proof.
  intros v. unfold table_sin.
  destruct (strict_eq v one); [by vm_compute|].
  destruct (strict_eq v (of_Z 2)); by vm_compute.
Qed.

Lemma table_cos_ok : engine_ok table_cos.
Proof.
  intros v. unfold table_cos.
  destruct (strict_eq v one); [by vm_compute|].
  destruct (strict_eq v (of_Z 2)); by vm_compute.
Qed.


Lemma cleared_flags_hold :
  holds_flags cleared_flags (λ _, false) (λ _, false) 2.
Proof.
  intros i Hi. assert (i = 1 ∨ i = 2)%Z as [-> | ->] by lia; by vm_compute.
Qed.

Lemma no_overflow_at_one i :
  (1 ≤ i ≤ 2)%Z → is_finite (of_Z i * one)%dbl = true.
Proof.
  intros Hi. assert (i = 1 ∨ i = 2)%Z as [-> | ->] by lia; by vm_compute.
Qed.




(** X1.  When every flag of the indices [1..n] is 0 and no multiple
    [i * a] overflows, the function returned by [makeWaveFunction] returns
    zero, and writes nothing. *)
Theorem makeWaveFunction_no_flags sin_impl cos_impl t n a :
  engine_ok sin_impl → engine_ok cos_impl →
  holds_flags t (λ _, false) (λ _, false) n →
  (∀ i, (1 ≤ i ≤ n)%Z → is_finite (of_Z i * a)%dbl = true) →
  ∃ z, makeWaveFunction sin_impl cos_impl t n a = (z, []) ∧
       is_zero z = true.
Proof.
  intros Hsin Hcos Ht Hfin.
  exists (makeWaveFunction sin_impl cos_impl t n a).1. split.
  - apply injective_projections; [reflexivity|]. apply wave_console.
  - pose proof (wave_enabled sin_impl cos_impl t _ _ a n Hsin Hcos Ht Hfin)
      as Hsum.
    rewrite enabled_sum_none in Hsum. by destruct Hsum as [->|[H _]].
Qed.

Lemma makeWaveFunction_no_flags_witness :
  ∃ z, makeWaveFunction table_sin table_cos cleared_flags 2 one = (z, []) ∧
       is_zero z = true.
Proof.
  apply (makeWaveFunction_no_flags table_sin table_cos cleared_flags 2 one).
  - exact table_sin_ok.
  - exact table_cos_ok.
  - exact cleared_flags_hold.
  - exact no_overflow_at_one.
Defined.

(** X19.  When a multiple [i * a] of the angle, [1 <= i <= n], overflows
    or is not a number, the function returned by [makeWaveFunction] returns
    [NaN], whatever the term set and the engine, and writes nothing. *)
Theorem makeWaveFunction_overflow sin_impl cos_impl t n a i :
  (1 ≤ i ≤ n)%Z →
  is_finite (of_Z i * a)%dbl = false →
  makeWaveFunction sin_impl cos_impl t n a = (nan, []).
Proof.
  intros Hi Hinf. unfold makeWaveFunction.
  rewrite (wave_loop_overflow sin_impl cos_impl t a i Hinf) by lia.
  done.
Qed.

Lemma makeWaveFunction_overflow_witness :
  makeWaveFunction table_sin table_cos cleared_flags 2 (decimal 1 308)
  = (nan, []).
Proof.
  apply (makeWaveFunction_overflow table_sin table_cos cleared_flags 2
           (decimal 1 308) 2).
  - lia.
  - by vm_compute.
Defined.

(** ** The sampling loop *)

Lemma double_terms_loop_cursor rnd k i t cur :
  (terms_loop rnd k i t cur).2 = (cur + 2 * k)%nat.
Proof.
  revert i t cur. induction k as [|k IH]; intros i t cur; cbn [terms_loop].
  - cbn. lia.
  - rewrite IH. lia.
Qed.

Lemma run_sample_loop sin_impl cos_impl rnd fuel o :
  let c := read_options o in
  generateTerrain_run sin_impl cos_impl rnd fuel o
  = sample_loop sin_impl cos_impl rnd c (draw_terms rnd c).1 fuel
      (initial_state (2 * Z.to_nat (s_numTerms c))).
Proof.
  cbv zeta. unfold generateTerrain_run.
  rewrite (surjective_pairing (draw_terms _ _)).
  unfold draw_terms at 2. by rewrite double_terms_loop_cursor.
Qed.

Lemma passes_sample_passes sin_impl cos_impl rnd fuel o :
  let c := read_options o in
  generateTerrain_passes sin_impl cos_impl rnd fuel o
  = sample_passes sin_impl cos_impl rnd c (draw_terms rnd c).1 fuel
      (initial_state (2 * Z.to_nat (s_numTerms c))).
Proof.
  cbv zeta. unfold generateTerrain_passes.
  rewrite (surjective_pairing (draw_terms _ _)).
  unfold draw_terms at 2. by rewrite double_terms_loop_cursor.
Qed.

(** What a pass of the body does: it pushes the sample, and then either
    leaves the zones alone, or places a zone. *)
Lemma loop_body_cases sin_impl cos_impl rnd c terms s :
  let p := sample_of sin_impl cos_impl rnd c terms s in
  let k := st_rng s in
  let s' := loop_body sin_impl cos_impl rnd c terms s in
  (st_terrain s' = st_terrain s ++ [p] ∧
   st_zonesPlaced s' = st_zonesPlaced s ∧ st_a s' = st_a s ∧
   (zone_ready c (st_a s) (st_zonesPlaced s) = true →
    draw_mod (rnd (k + 2)) 8 ≠ Some 1%Z ∧ st_rng s' = k + 3) ∧
   (zone_ready c (st_a s) (st_zonesPlaced s) = false → st_rng s' = k + 2))
  ∨
  (zone_ready c (st_a s) (st_zonesPlaced s) = true ∧
   draw_mod (rnd (k + 2)) 8 = Some 1%Z ∧
   let q := zone_end c p (draw_mod (rnd (k + 3)) 3) in
   st_terrain s' = st_terrain s ++ [p; q] ∧
   st_zonesPlaced s' = (st_zonesPlaced s + 1)%Z ∧
   st_a s' = (x q / s_scaleX c)%dbl ∧
   st_rng s' = k + 4).
Proof.
  cbv zeta. unfold loop_body, zone_ready, sample_of.
  rewrite (surjective_pairing (wave _ _ _ _ _)).
  unfold zone_part. cbn [st_a st_zonesPlaced st_terrain st_rng].
  replace (st_rng s + 2) with (S (S (st_rng s))) by lia.
  replace (st_rng s + 3) with (S (S (S (st_rng s)))) by lia.
  replace (st_rng s + 4) with (S (S (S (S (st_rng s))))) by lia.
  destruct (s_numZones c <? st_zonesPlaced s)%Z; cbn [negb andb].
  { left. by repeat split. }
  destruct (gt _ zero).
  2: { left. by repeat split. }
  case_bool_decide as Hd; cbn [negb].
  - right. split; [done|]. split; [done|].
    cbn [st_a st_zonesPlaced st_terrain st_rng].
    rewrite <- app_assoc. cbn [app].
    destruct (draw_mod (rnd (S (S (S (st_rng s))))) 3)
      as [[|[?|[?|?|]|]|?]|]; by repeat split.
  - left. cbn [st_a st_zonesPlaced st_terrain st_rng]. by repeat split.
Qed.

(** A run of the loop only appends to the array and only counts zones up,
    while the counter is at most [numZones]; each pass pushes one sample,
    and one coordinate more when it places a zone. *)
Lemma sample_loop_grows sin_impl cos_impl rnd c terms fuel s s' :
  sample_loop sin_impl cos_impl rnd c terms fuel s = Some s' →
  st_terrain s `prefix_of` st_terrain s' ∧
  (st_zonesPlaced s ≤ st_zonesPlaced s')%Z ∧
  (st_zonesPlaced s' ≤ Z.max (st_zonesPlaced s) (s_numZones c + 1))%Z ∧
  ∃ n, sample_passes sin_impl cos_impl rnd c terms fuel s = Some n ∧
       length (st_terrain s')
       = (length (st_terrain s) + n
          + Z.to_nat (st_zonesPlaced s' - st_zonesPlaced s))%nat.
Proof.
  revert s. induction fuel as [|fuel IH]; intros s Hrun; [done|].
  cbn [sample_loop sample_passes] in *.
  destruct (lt (st_a s) (s_maxPhase c)).
  2: { injection Hrun as <-. repeat split; try done; try lia.
       exists 0. split; [done|]. rewrite Z.sub_diag. cbn. lia. }
  apply IH in Hrun as (Hpre & Hle & Hmax & n & Hn & Hlen).
  cbn [loop_update st_terrain st_zonesPlaced] in *.
  rewrite Hn. cbn [fmap option_fmap option_map].
  destruct (loop_body_cases sin_impl cos_impl rnd c terms s)
    as [(Ht & Hz & _)|(Hready & _ & Ht & Hz & _)];
    rewrite Ht, Hz in *.
  - split; [by eapply prefix_app_l|]. split; [done|]. split; [done|].
    exists (S n). split; [done|]. rewrite length_app in Hlen. cbn in Hlen. lia.
  - unfold zone_ready in Hready. apply andb_prop in Hready as [Hguard _].
    apply negb_true_iff, Z.ltb_ge in Hguard.
    split; [by eapply prefix_app_l|]. split; [lia|]. split; [lia|].
    exists (S n). split; [done|]. rewrite length_app in Hlen. cbn in Hlen. lia.
Qed.

Lemma double_draw_mod_hundredth u m h :
  hundredth u = Some h → draw_mod u m = Some (Z.rem h m).
Proof. unfold hundredth, draw_mod. by intros ->. Qed.






(** ** The number of zones placed *)

(** C9.  In every run that returns, the number of zones placed is at most
    [numZones + 1] (none is placed when [numZones] is negative), and the
    array holds one coordinate for each pass of the loop and one more for
    each zone placed.  There are runs that place [numZones + 1] zones: with
    the domain [6e-323] and five zones, [zoneSpacing] rounds from 2.4 units
    down to 2, so that a sixth zone is due at 11 units; the draws
    [six_zone_draws] place six zones, in seven passes, for an array of 13
    coordinates. *)
Theorem generateTerrain_zones_bound sin_impl cos_impl :
  (∀ rnd fuel o s,
     generateTerrain_run sin_impl cos_impl rnd fuel o = Some s →
     (0 ≤ st_zonesPlaced s
      ≤ Z.max 0 (s_numZones (read_options o) + 1))%Z ∧
     ∃ n, generateTerrain_passes sin_impl cos_impl rnd fuel o = Some n ∧
          length (st_terrain s) = n + Z.to_nat (st_zonesPlaced s)) ∧
  (∃ rnd fuel o s,
     generateTerrain_run sin_impl cos_impl rnd fuel o = Some s ∧
     s_numZones (read_options o) = 5%Z ∧
     st_zonesPlaced s = (s_numZones (read_options o) + 1)%Z ∧
     generateTerrain_passes sin_impl cos_impl rnd fuel o = Some 7 ∧
     length (st_terrain s) = 13).
Proof.
  split.
  - intros rnd fuel o s Hrun.
    rewrite run_sample_loop in Hrun.
    rewrite passes_sample_passes. cbv zeta in *.
    apply sample_loop_grows in Hrun as (_ & Hle & Hmax & n & Hn & Hlen).
    cbn [initial_state st_zonesPlaced st_terrain length] in *.
    split; [lia|]. exists n. split; [done|].
    rewrite Hlen, Z.sub_0_r. lia.
  - exists six_zone_draws, 8, tiny_options.
    assert ((λ s, (st_zonesPlaced s, length (st_terrain s)))
            <$> generateTerrain_run sin_impl cos_impl six_zone_draws 8
                  tiny_options = Some (6%Z, 13)) as H by (by vm_compute).
    destruct (generateTerrain_run sin_impl cos_impl six_zone_draws 8
                tiny_options) as [s|]; [|done].
    injection H as Hz Hl.
    exists s. repeat split; try done; by vm_compute.
Qed.

(** ** The length of the array without zones *)



(** ** The array, pass by pass *)




(** ** A run that never ends *)

(** At the angle [stall_angle] with one zone placed, a pass of the loop of
    [stall_options] leaves both as they are: no zone is due, and the step,
    0.608, is less than half the distance to the next double, 16. *)
Lemma stall_pass sin_impl cos_impl terms s :
  let c := read_options stall_options in
  st_a s = stall_angle → st_zonesPlaced s = 1%Z →
  let s' := loop_update hundredth_draws c
              (loop_body sin_impl cos_impl hundredth_draws c terms s) in
  st_a s' = stall_angle ∧ st_zonesPlaced s' = 1%Z.
Proof.
  intros c Ha Hzp. cbv zeta. cbn [loop_update st_a st_zonesPlaced].
  destruct (loop_body_cases sin_impl cos_impl hundredth_draws c terms s)
    as [(_ & -> & -> & _)|(Hready & _)].
  - split; [|done]. rewrite Ha. by vm_compute.
  - rewrite Ha, Hzp in Hready. by vm_compute in Hready.
Qed.

Lemma stall_for_ever sin_impl cos_impl terms fuel s :
  st_a s = stall_angle → st_zonesPlaced s = 1%Z →
  sample_loop sin_impl cos_impl hundredth_draws (read_options stall_options)
    terms fuel s = None.
Proof.
  revert s. induction fuel as [|fuel IH]; intros s Ha Hzp; [done|].
  cbn [sample_loop]. rewrite Ha.
  assert (lt stall_angle (s_maxPhase (read_options stall_options)) = true)
    as -> by (by vm_compute).
  apply IH; by apply stall_pass.
Qed.

(** The first two passes of the run of [stall_options]: the second one
    places the zone, which sets the angle to [stall_angle]. *)
Lemma stall_start sin_impl cos_impl :
  let c := read_options stall_options in
  let terms := (draw_terms hundredth_draws c).1 in
  let pass s := loop_update hundredth_draws c
                  (loop_body sin_impl cos_impl hundredth_draws c terms s) in
  let s0 := initial_state (2 * Z.to_nat (s_numTerms c)) in
  lt (st_a s0) (s_maxPhase c) = true ∧
  lt (st_a (pass s0)) (s_maxPhase c) = true ∧
  st_a (pass (pass s0)) = stall_angle ∧
  st_zonesPlaced (pass (pass s0)) = 1%Z.
Proof. by vm_compute. Qed.

(** C6, at a failing input.  The options [stall_options] have
    [maxPhase = 1e17 > 0], [numSamples = 1e17 >= 1], [scaleX = 1], one zone
    and three zone widths that are not negative.  With every draw 0.01 the
    second pass places the zone, which sets the angle to 99999999999999984;
    there the step 0.608 is absorbed by the addition, the angle stays below
    [maxPhase], and the call never returns: it gives no result, whatever
    the fuel and the engine. *)
Theorem generateTerrain_stalls sin_impl cos_impl fuel :
  let c := read_options stall_options in
  lt zero (s_maxPhase c) = true ∧ (1 ≤ s_numSamples c)%Z ∧
  lt zero (s_scaleX c) = true ∧ s_maxDevX c = zero ∧
  s_zoneWidths c = [stall_angle; stall_angle; stall_angle] ∧
  generateTerrain sin_impl cos_impl hundredth_draws fuel stall_options = None.
Proof.
  cbv zeta. do 5 (split; [by vm_compute|]).
  unfold generateTerrain. rewrite run_sample_loop. cbv zeta.
  destruct (stall_start sin_impl cos_impl) as (H0 & H1 & Ha & Hzp).
  destruct fuel as [|[|fuel]]; [done|by cbn [sample_loop]; rewrite H0|].
  cbn [sample_loop]. rewrite H0, H1.
  by rewrite stall_for_ever.
Qed.

(** ** The draws of a zone *)

(** C4, as the code has it.  At a pass where a zone is due, the draw [u]
    of the skip test is read through its hundredth [h = floor(u * 100)]:
    the zone is placed when [h] is one of the 13 hundredths 1, 9, ..., 97
    ([h % 8 === 1]), and skipped at the 87 others; the end of a zone that
    is placed takes the width [zoneWidths[h' % 3]] for the hundredth [h']
    of the next draw, and 34, 33 and 33 of the 100 hundredths select the
    widths 0, 1 and 2. *)
Theorem zone_part_hundredths rnd c s xs ys h :
  let s' := zone_part rnd c s xs ys in
  zone_ready c (st_a s) (st_zonesPlaced s) = true →
  hundredth (rnd (st_rng s)) = Some h → (0 ≤ h < 100)%Z →
  (h ∈ place_hundredths →
   st_zonesPlaced s' = (st_zonesPlaced s + 1)%Z ∧
   ∃ q, st_terrain s' = st_terrain s ++ [q] ∧ y q = ys ∧
        ∀ h', hundredth (rnd (S (st_rng s))) = Some h' → (0 ≤ h' < 100)%Z →
              x q = (xs + zone_width (s_zoneWidths c)
                           (Z.to_nat (h' `mod` 3)))%dbl) ∧
  (h ∉ place_hundredths →
   st_zonesPlaced s' = st_zonesPlaced s ∧ st_terrain s' = st_terrain s) ∧
  length place_hundredths = 13 ∧
  length (filter (λ h, h ∉ place_hundredths) hundredths) = 87 ∧
  length (variant_hundredths 0) = 34 ∧
  length (variant_hundredths 1) = 33 ∧
  length (variant_hundredths 2) = 33.
Proof.
  intros s' Hready Hh Hrange.
  assert (h ∈ place_hundredths ↔ Z.rem h 8 = 1%Z) as Hplace.
  { assert (Forall (λ h, h ∈ place_hundredths ↔ Z.rem h 8 = 1%Z) hundredths)
      as Hall by (apply (bool_decide_unpack _); by vm_compute).
    rewrite Forall_forall in Hall. apply Hall, elem_of_seqZ. lia. }
  unfold zone_ready in Hready. apply andb_prop in Hready as [Hguard Hgt].
  apply negb_true_iff in Hguard.
  subst s'. unfold zone_part. rewrite Hguard, Hgt.
  rewrite (double_draw_mod_hundredth _ 8 h Hh).
  split; [|split; [|by vm_compute]].
  - intros Hin. apply Hplace in Hin. rewrite Hin.
    rewrite bool_decide_true by done. cbn [negb st_zonesPlaced st_terrain].
    split; [done|]. eexists. split; [done|]. split; [done|].
    intros h' Hh' Hr'. cbn [x]. rewrite (double_draw_mod_hundredth _ 3 h' Hh').
    rewrite Z.rem_mod_nonneg by lia.
    pose proof (Z.mod_pos_bound h' 3 eq_refl) as Hb.
    assert (h' `mod` 3 = 0 ∨ h' `mod` 3 = 1 ∨ h' `mod` 3 = 2)%Z
      as [->|[->| ->]] by (clear -Hb; lia); done.
  - intros Hout. rewrite bool_decide_false.
    2: { intros [= Heq]. apply Hout, Hplace, Heq. }
    done.
Qed.

Lemma zone_part_hundredths_witness :
  (let s' := zone_part hundredth_draws (read_options two_zones) due_state
               (of_Z 100) zero in
   st_zonesPlaced s' = 1%Z ∧ st_terrain s' = [Coord (of_Z 140) zero]) ∧
  (let s' := zone_part zero_draws (read_options two_zones) due_state
               (of_Z 100) zero in
   st_zonesPlaced s' = 0%Z ∧ st_terrain s' = []).
Proof.
  split; cbv zeta.
  - destruct (zone_part_hundredths hundredth_draws (read_options two_zones)
                due_state (of_Z 100) zero 1)
      as ((Hz & q & Ht & Hy & Hx) & _);
      [by vm_compute|by vm_compute|lia| |].
    { apply (bool_decide_unpack _). by vm_compute. }
    split; [exact Hz|]. rewrite Ht. destruct q as [qx qy].
    cbn [x y] in Hx, Hy. rewrite Hy, (Hx 1%Z); [|by vm_compute|lia].
    by vm_compute.
  - destruct (zone_part_hundredths zero_draws (read_options two_zones)
                due_state (of_Z 100) zero 0)
      as (_ & Hskip & _); [by vm_compute|by vm_compute|lia|].
    apply Hskip. apply (bool_decide_unpack _). by vm_compute.
Defined.

(** ** The first coordinate *)

Lemma or_default_truthy o v d :
  o = Some v → truthy v = true → or_default o d = v.
Proof. intros -> Hv. unfold or_default. by rewrite Hv. Qed.

(** C10.  With [maxPhase > 0], every array that [generateTerrain] returns
    is not empty and starts with the sample taken at [a = 0], whatever the
    passes that follow: its [x] is [0 * scaleX] plus the jitter
    [(u' * 2 - 1) * maxDeviationX], its [y] is
    [offsetY - wave(0) * scaleY] plus the jitter
    [(u * 2 - 1) * maxDeviationY], for the two draws [u], [u'] that follow
    those of the terms, all in double precision.  Without deviations, and
    with a finite [scaleX], the [x] is zero and the [y] is
    [offsetY - wave(0) * scaleY].  The scales, the offset and the
    deviations are those of the options when they are given and truthy. *)
Theorem generateTerrain_first_sample sin_impl cos_impl rnd o fuel t :
  let c := read_options o in
  let k := 2 * Z.to_nat (s_numTerms c) in
  let w0 := (wave sin_impl cos_impl c (draw_terms rnd c).1 zero).1 in
  let first :=
    Coord (zero * s_scaleX c + centred (rnd (S k)) * s_maxDevX c)%dbl
          (s_offsetY c - w0 * s_scaleY c
           + centred (rnd k) * s_maxDevY c)%dbl in
  lt zero (s_maxPhase c) = true →
  generateTerrain sin_impl cos_impl rnd fuel o = Some t →
  (∃ rest, t = first :: rest) ∧
  (is_zero (s_maxDevX c) = true → is_zero (s_maxDevY c) = true →
   is_finite (s_scaleX c) = true →
   is_finite (centred (rnd k)) = true →
   is_finite (centred (rnd (S k))) = true →
   is_zero (x first) = true ∧
   same_number (y first) (s_offsetY c - w0 * s_scaleY c)%dbl) ∧
  (∀ v, offsetY o = Some v → truthy v = true → s_offsetY c = v) ∧
  (∀ v, scaleX o = Some v → truthy v = true → s_scaleX c = v) ∧
  (∀ v, scaleY o = Some v → truthy v = true → s_scaleY c = v) ∧
  (∀ v, maxDeviationX o = Some v → truthy v = true → s_maxDevX c = v) ∧
  (∀ v, maxDeviationY o = Some v → truthy v = true → s_maxDevY c = v).
Proof.
  intros c k w0 first Hmp Hrun.
  split; [|split].
  - unfold generateTerrain in Hrun. rewrite run_sample_loop in Hrun.
    cbv zeta in Hrun. fold c k in Hrun.
    destruct (sample_loop _ _ _ _ _ _ _) as [s'|] eqn:Hloop; [|done].
    injection Hrun as <-.
    destruct fuel as [|fuel]; [done|]. cbn [sample_loop] in Hloop.
    cbn [initial_state st_a] in Hloop. rewrite Hmp in Hloop.
    apply sample_loop_grows in Hloop as [[rest Hpre] _].
    cbn [loop_update st_terrain] in Hpre.
    destruct (loop_body_cases sin_impl cos_impl rnd c (draw_terms rnd c).1
                (initial_state k))
      as [(Ht & _)|(_ & _ & Ht & _)];
      rewrite Ht in Hpre; cbn [initial_state st_terrain app] in Hpre;
      rewrite Hpre; by eexists.
  - intros Hdx Hdy Hsx Hj Hj'. cbn [x y first]. split.
    + apply add_zeros; [by apply mul_zero_l|by apply mul_finite_zero].
    + apply add_zero_same_number. by apply mul_finite_zero.
  - unfold c, read_options.
    cbn [s_offsetY s_scaleX s_scaleY s_maxDevX s_maxDevY].
    repeat split; intros v Hv Ht; by apply or_default_truthy.
Qed.

Lemma generateTerrain_first_sample_witness :
  (∃ rest,
     generateTerrain table_sin table_cos quarter_draws 8 jitter_options
     = Some (Coord (of_Z (-1)) (decimal 3585 (-1)) :: rest)) ∧
  (∃ rest,
     generateTerrain table_sin table_cos quarter_draws 8 plain_options
     = Some (Coord zero (of_Z 360) :: rest)).
Proof.
  split.
  - assert (length <$> generateTerrain table_sin table_cos quarter_draws 8
                         jitter_options = Some 3) as H by (by vm_compute).
    destruct (generateTerrain table_sin table_cos quarter_draws 8
                jitter_options) as [t|] eqn:Hrun; [clear H|done].
    destruct (generateTerrain_first_sample table_sin table_cos quarter_draws
                jitter_options 8 t) as ((rest & ->) & _);
      [by vm_compute|exact Hrun|].
    exists rest. vm_compute. reflexivity.
  - assert (length <$> generateTerrain table_sin table_cos quarter_draws 8
                         plain_options = Some 3) as H by (by vm_compute).
    destruct (generateTerrain table_sin table_cos quarter_draws 8
                plain_options) as [t|] eqn:Hrun; [clear H|done].
    destruct (generateTerrain_first_sample table_sin table_cos quarter_draws
                plain_options 8 t) as ((rest & ->) & _);
      [by vm_compute|exact Hrun|].
    exists rest. vm_compute. reflexivity.
Defined.

End DoublePrecision.
